(** * LFSR seed recovery: a shallow embedding of [breaklsfr18lab.py]

    The Python module drives two linear-feedback shift registers, adds their
    byte outputs modulo 255 and recovers both seeds from a known keystream
    prefix by a meet-in-the-middle search.  This file embeds the functions
    [convert_taps], [lfsr_next_bit], [lfsr_next_byte], [lfsr_stream],
    [mitm_recover_seeds], [generate_full_keystream] and [main] and proves
    the properties the specification states about them, followed by further
    properties read off the code.

    Python integers are unbounded, so they are [Z]; [&], [|], [^] and [>>]
    agree with [Z.land], [Z.lor], [Z.lxor] and [Z.shiftr] on all integers,
    and [%] with a positive modulus is [Z.modulo].  The only operations of the
    module that can raise are the shifts (a negative count is a [ValueError])
    and [bytearray.append] (an item outside [0, 256) is a [ValueError]); the
    calls to [print] have no effect on any result and are left out. *)

From stdpp Require Import gmap list.

Local Open Scope Z_scope.

(** ** Outcomes of Python code *)

Inductive exn : Set :=
  | ValueError          (* raised by the interpreter: shifts, bytearray *)
  | InvalidTapError.    (* named by the specification only *)

Inductive py (A : Type) : Type :=
  | Ret (a : A)
  | Raise (e : exn).

Arguments Ret {A} a.
Arguments Raise {A} e.

Definition bind {A B : Type} (m : py A) (k : A -> py B) : py B :=
  match m with
  | Ret a => k a
  | Raise e => Raise e
  end.

Notation "'let*' x ':=' m 'in' k" := (bind m (fun x => k))
  (at level 10, x name, m at level 100, k at level 200).

#[global] Instance exn_eq_dec : EqDecision exn.
Proof. solve_decision. Defined.

#[global] Instance py_eq_dec {A : Type} `{EqDecision A} : EqDecision (py A).
Proof. solve_decision. Defined.

(** [a >> n] and [a << n] on Python integers. *)
Definition rshift (a n : Z) : py Z :=
  if n <? 0 then Raise ValueError else Ret (Z.shiftr a n).

Definition lshift (a n : Z) : py Z :=
  if n <? 0 then Raise ValueError else Ret (Z.shiftl a n).

(** [range(stop)]. *)
Definition py_range (stop : Z) : list Z := seqZ 0 stop.

Arguments py_range : simpl never.

(** [bytearray.append]. *)
Definition bytearray_append (out : list Z) (x : Z) : py (list Z) :=
  if (0 <=? x) && (x <? 256) then Ret (out ++ [x]) else Raise ValueError.

(** ** Module constants *)

Definition WIDTH_REG1 : Z := 12.
Definition WIDTH_REG2 : Z := 19.

Definition RAW_TAPS_REG1 : list Z := [2; 7].
Definition RAW_TAPS_REG2 : list Z := [5; 11].

(** ** [convert_taps] *)

Fixpoint convert_taps_loop (raw_taps : list Z) (width : Z) (taps : list Z)
  : list Z :=
  match raw_taps with
  | [] => taps
  | t :: rest =>
      let idx_from_msb_0based := t - 1 in
      let pos_from_lsb := (width - 1) - idx_from_msb_0based in
      convert_taps_loop rest width (taps ++ [pos_from_lsb])
  end.

Definition convert_taps (raw_taps : list Z) (width : Z) : list Z :=
  convert_taps_loop raw_taps width [].

(** The body of [convert_taps] is subtraction and [list.append] on integers:
    nothing in it can raise, so the outcome of a call is always a return. *)
Definition convert_taps_outcome (raw_taps : list Z) (width : Z)
  : py (list Z) :=
  Ret (convert_taps raw_taps width).

(** ** [lfsr_next_bit] *)

Fixpoint feedback_loop (state : Z) (taps : list Z) (fb : Z) : py Z :=
  match taps with
  | [] => Ret fb
  | pos :: rest =>
      let* sh := rshift state pos in
      feedback_loop state rest (Z.lxor fb (Z.land sh 1))
  end.

Definition lfsr_next_bit (state width : Z) (taps : list Z) : py (Z * Z) :=
  let out_bit := Z.land state 1 in
  let* fb := feedback_loop state taps 0 in
  let* state := rshift state 1 in
  let* hi := lshift fb (width - 1) in
  let state := Z.lor state hi in
  let* one_w := lshift 1 width in
  let state := Z.land state (one_w - 1) in
  Ret (out_bit, state).

(** ** [lfsr_next_byte] *)

Fixpoint next_byte_loop (idxs : list Z) (width : Z) (taps : list Z)
  (b state : Z) : py (Z * Z) :=
  match idxs with
  | [] => Ret (b, state)
  | i :: rest =>
      let* r := lfsr_next_bit state width taps in
      let* sh := lshift (fst r) i in
      next_byte_loop rest width taps (Z.lor b sh) (snd r)
  end.

Definition lfsr_next_byte (seed width : Z) (taps : list Z) : py (Z * Z) :=
  next_byte_loop (py_range 8) width taps 0 seed.

(** ** [lfsr_stream] *)

(** The loop of [lfsr_stream]; it also hands back the register state it ends
    in, which the Python function drops. *)
Fixpoint stream_loop (nbytes : nat) (width : Z) (taps : list Z)
  (state : Z) (out : list Z) : py (list Z * Z) :=
  match nbytes with
  | O => Ret (out, state)
  | S k =>
      let* r := lfsr_next_byte state width taps in
      stream_loop k width taps (snd r) (out ++ [fst r])
  end.

Definition lfsr_stream (seed width : Z) (taps : list Z) (nbytes : nat)
  : py (list Z) :=
  let* r := stream_loop nbytes width taps seed [] in
  Ret (fst r).

(** The register state after [n] calls of [lfsr_next_byte]. *)
Fixpoint iter_next_byte (n : nat) (state width : Z) (taps : list Z) : py Z :=
  match n with
  | O => Ret state
  | S k =>
      let* r := lfsr_next_byte state width taps in
      iter_next_byte k (snd r) width taps
  end.

(** ** [mitm_recover_seeds] *)

(** The inner loop over [zip(keystream_header, seq1)]. *)
Definition needed_seq2 (keystream_header seq1 : list Z) : list Z :=
  zip_with (fun k b1 => (k - b1) mod 255) keystream_header seq1.

(** The loop that fills the dictionary [seq_to_seed2]. *)
Fixpoint build_table (seeds : list Z) (taps2 : list Z) (n : nat)
  (seq_to_seed2 : gmap (list Z) Z) : py (gmap (list Z) Z) :=
  match seeds with
  | [] => Ret seq_to_seed2
  | seed2 :: rest =>
      let* seq2 := lfsr_stream seed2 WIDTH_REG2 taps2 n in
      build_table rest taps2 n
        (match seq_to_seed2 !! seq2 with
         | None => <[seq2 := seed2]> seq_to_seed2
         | Some _ => seq_to_seed2
         end)
  end.

(** The loop over the seeds of register 1.  Leaving the loop without a hit
    falls off the end of the function, which in Python returns [None]. *)
Fixpoint search_seed1 (seeds : list Z) (taps1 : list Z)
  (keystream_header : list Z) (n : nat) (seq_to_seed2 : gmap (list Z) Z)
  : py (option (Z * Z)) :=
  match seeds with
  | [] => Ret None
  | seed1 :: rest =>
      let* seq1 := lfsr_stream seed1 WIDTH_REG1 taps1 n in
      match seq_to_seed2 !! needed_seq2 keystream_header seq1 with
      | Some seed2 => Ret (Some (seed1, seed2))
      | None => search_seed1 rest taps1 keystream_header n seq_to_seed2
      end
  end.

Definition mitm_recover_seeds (keystream_header : list Z)
  : py (option (Z * Z)) :=
  let n := length keystream_header in
  let taps1 := convert_taps RAW_TAPS_REG1 WIDTH_REG1 in
  let taps2 := convert_taps RAW_TAPS_REG2 WIDTH_REG2 in
  let* max_seed1 := lshift 1 WIDTH_REG1 in
  let* max_seed2 := lshift 1 WIDTH_REG2 in
  let* seq_to_seed2 := build_table (py_range max_seed2) taps2 n ∅ in
  search_seed1 (py_range max_seed1) taps1 keystream_header n seq_to_seed2.

(** ** [generate_full_keystream] *)

Fixpoint keystream_loop (nbytes : nat) (taps1 taps2 : list Z)
  (s1 s2 : Z) (out : list Z) : py (list Z) :=
  match nbytes with
  | O => Ret out
  | S k =>
      let* r1 := lfsr_next_byte s1 WIDTH_REG1 taps1 in
      let* r2 := lfsr_next_byte s2 WIDTH_REG2 taps2 in
      let rnd := (fst r1 + fst r2) mod 255 in
      let* out := bytearray_append out rnd in
      keystream_loop k taps1 taps2 (snd r1) (snd r2) out
  end.

Definition generate_full_keystream (seed1 seed2 : Z) (nbytes : nat)
  : py (list Z) :=
  let taps1 := convert_taps RAW_TAPS_REG1 WIDTH_REG1 in
  let taps2 := convert_taps RAW_TAPS_REG2 WIDTH_REG2 in
  keystream_loop nbytes taps1 taps2 seed1 seed2 [].

(** ** [main] *)

(** The known plaintext prefix. *)
Definition PNG_HEADER : list Z := [137; 80; 78; 71; 13; 10; 26; 10].

(** How a run of [main] ends.  The file system is left out: the argument of
    [main] is the content of [flag.enc] and [Wrote plain completed] stands
    for writing [plain] to [flag.png], with [completed] telling whether the
    final message is printed. *)
Inductive main_outcome : Type :=
  | Wrote (plain : list Z) (completed : bool)
  | RuntimeError        (* raise RuntimeError("Ciphertext not valid") *)
  | TypeError           (* unpacking the None that the search returned *)
  | Raised (e : exn).

(** [bytes(iterable)]: every item must be in [range(256)]. *)
Definition py_bytes (items : list Z) : py (list Z) :=
  if forallb (fun x => (0 <=? x) && (x <? 256)) items
  then Ret items else Raise ValueError.

(** [data.startswith(prefix)]. *)
Definition startswith (data prefix : list Z) : bool :=
  bool_decide (take (length prefix) data = prefix).

Definition main (cipher : list Z) : main_outcome :=
  if (length cipher <? length PNG_HEADER)%nat then RuntimeError
  else
    let header_ct := take (length PNG_HEADER) cipher in
    let keystream_header := zip_with Z.lxor header_ct PNG_HEADER in
    match mitm_recover_seeds keystream_header with
    | Raise e => Raised e
    | Ret None => TypeError
    | Ret (Some (seed1, seed2)) =>
        match generate_full_keystream seed1 seed2 (length cipher) with
        | Raise e => Raised e
        | Ret ks =>
            match py_bytes (zip_with Z.lxor cipher ks) with
            | Raise e => Raised e
            | Ret plain => Wrote plain (startswith plain PNG_HEADER)
            end
        end
    end.

(** ** Specification-level definitions *)

(** The XOR of the bits of [state] at the tap offsets. *)
Definition xor_bits (state : Z) (taps : list Z) : bool :=
  foldr (fun pos acc => xorb (Z.testbit state pos) acc) false taps.

(** The sequence the search looks up for a seed of register 1. *)
Definition needed_for (keystream_header : list Z) (seed1 : Z) : list Z :=
  match lfsr_stream seed1 WIDTH_REG1 (convert_taps RAW_TAPS_REG1 WIDTH_REG1)
          (length keystream_header) with
  | Ret seq1 => needed_seq2 keystream_header seq1
  | Raise _ => []
  end.

(** *** Checks used to settle concrete searches

    A seed of register 2 is fixed by the first three bytes of its stream
    (lemma [stream2_prefix] below), so whether some seed of register 2
    matches a needed sequence is decided by running one candidate. *)

Definition seed2_of_prefix (b0 b1 b2 : Z) : Z :=
  b0 + 256 * b1 + 65536 * (b2 mod 8).

Definition hit_candidate (needed : list Z) : Z :=
  match needed with
  | b0 :: b1 :: b2 :: _ => seed2_of_prefix b0 b1 b2
  | _ => 0
  end.

(** No seed of register 2 produces the sequence needed for [seed1]. *)
Definition no_hit (keystream_header : list Z) (seed1 : Z) : bool :=
  let needed := needed_for keystream_header seed1 in
  negb (bool_decide
          (lfsr_stream (hit_candidate needed) WIDTH_REG2
             (convert_taps RAW_TAPS_REG2 WIDTH_REG2) (length keystream_header)
           = Ret needed)).

(** The bytes in [0, 255] whose residue modulo 255 is [r]. *)
Definition lifts (r : Z) : list Z := if r =? 0 then [0; 255] else [r].

Definition candidates (needed : list Z) : list Z :=
  match needed with
  | r0 :: r1 :: r2 :: _ =>
      flat_map (fun c0 =>
        flat_map (fun c1 =>
          map (fun c2 => seed2_of_prefix c0 c1 c2) (lifts r2))
          (lifts r1))
        (lifts r0)
  | _ => []
  end.

(** No seed of register 2 combines with [seed1] to the header. *)
Definition no_pair (keystream_header : list Z) (seed1 : Z) : bool :=
  forallb
    (fun seed2 =>
       negb (bool_decide
               (generate_full_keystream seed1 seed2 (length keystream_header)
                = Ret keystream_header)))
    (candidates (needed_for keystream_header seed1)).

(** * Properties *)

(** ** The outcome monad and the primitive operations *)

Lemma bind_inv {A B : Type} (m : py A) (k : A -> py B) (b : B) :
  bind m k = Ret b -> exists a, m = Ret a /\ k a = Ret b.
Proof. destruct m as [a|e]; simpl; [eauto | discriminate]. Qed.

Lemma rshift_ok (a n : Z) : 0 <= n -> rshift a n = Ret (Z.shiftr a n).
Proof.
  intros Hn. unfold rshift.
  destruct (Z.ltb_spec n 0) as [Hlt|_]; [lia | reflexivity].
Qed.

Lemma lshift_ok (a n : Z) : 0 <= n -> lshift a n = Ret (Z.shiftl a n).
Proof.
  intros Hn. unfold lshift.
  destruct (Z.ltb_spec n 0) as [Hlt|_]; [lia | reflexivity].
Qed.

Lemma py_range_8 : py_range 8 = [0; 1; 2; 3; 4; 5; 6; 7].
Proof. reflexivity. Qed.

Lemma elem_of_py_range (stop x : Z) : x ∈ py_range stop <-> 0 <= x < stop.
Proof. unfold py_range. rewrite elem_of_seqZ. lia. Qed.

(** ** [convert_taps] *)

Lemma convert_taps_loop_map (raw : list Z) (w : Z) (acc : list Z) :
  convert_taps_loop raw w acc = acc ++ map (fun t => w - t) raw.
Proof.
  revert acc. induction raw as [|t raw IH]; intros acc; simpl.
  - by rewrite app_nil_r.
  - rewrite IH, <- app_assoc. simpl.
    replace (w - 1 - (t - 1)) with (w - t) by lia. reflexivity.
Qed.

Lemma convert_taps_map (raw : list Z) (w : Z) :
  convert_taps raw w = map (fun t => w - t) raw.
Proof. unfold convert_taps. by rewrite convert_taps_loop_map. Qed.

Lemma taps1_eq : convert_taps RAW_TAPS_REG1 WIDTH_REG1 = [10; 5].
Proof. reflexivity. Qed.

Lemma taps2_eq : convert_taps RAW_TAPS_REG2 WIDTH_REG2 = [14; 8].
Proof. reflexivity. Qed.

(** C8: with every raw tap in [1, w], tap [t] at index [i] becomes the offset
    [w - t] at the same index [i], the output is as long as the input, and
    every offset lies in [0, w - 1]. *)
Theorem convert_taps_offsets (w : Z) (raw : list Z) :
  1 <= w ->
  Forall (fun t => 1 <= t <= w) raw ->
  length (convert_taps raw w) = length raw
  /\ (forall (i : nat) (t : Z),
        raw !! i = Some t -> convert_taps raw w !! i = Some (w - t))
  /\ Forall (fun off => 0 <= off <= w - 1) (convert_taps raw w).
Proof.
  intros Hw Hraw. rewrite convert_taps_map. split; [|split].
  - by rewrite length_map.
  - intros i t Hi. by rewrite list_lookup_fmap, Hi.
  - apply Forall_fmap. eapply Forall_impl; [exact Hraw|].
    simpl. intros t Ht. lia.
Qed.

Lemma convert_taps_offsets_witness :
  length (convert_taps [2; 7] 12) = length [2; 7]
  /\ (forall (i : nat) (t : Z),
        [2; 7] !! i = Some t -> convert_taps [2; 7] 12 !! i = Some (12 - t))
  /\ Forall (fun off => 0 <= off <= 12 - 1) (convert_taps [2; 7] 12).
Proof.
  apply (convert_taps_offsets 12 [2; 7]); [lia|].
  repeat constructor; lia.
Defined.

(** C4 fails on the code: a tap outside [1, w] is converted like any other,
    here tap 13 of a 12-bit register to the offset -1, and nothing is
    raised. *)
Lemma convert_taps_out_of_range_cex :
  Exists (fun t => ~ (1 <= t <= 12)) [13]
  /\ convert_taps_outcome [13] 12 = Ret [-1]
  /\ convert_taps_outcome [13] 12 <> Raise InvalidTapError.
Proof.
  split; [|split].
  - constructor. lia.
  - reflexivity.
  - discriminate.
Qed.

(** C4, amended: [convert_taps] checks no range and never fails; for every
    width and every list of raw taps it returns the offsets [w - t] in input
    order, so a tap is outside [1, w] exactly when its offset is outside
    [0, w - 1]. *)
Theorem convert_taps_total (w : Z) (raw : list Z) :
  convert_taps_outcome raw w = Ret (map (fun t => w - t) raw)
  /\ Forall2 (fun t off => off = w - t /\ (1 <= t <= w <-> 0 <= off <= w - 1))
       raw (convert_taps raw w).
Proof.
  unfold convert_taps_outcome. rewrite convert_taps_map. split; [reflexivity|].
  induction raw as [|t raw IH]; simpl; constructor; [|exact IH].
  split; [reflexivity | lia].
Qed.

(** ** [lfsr_next_bit] *)

Lemma land_1_b2z (a : Z) : Z.land a 1 = Z.b2z (Z.testbit a 0).
Proof.
  change 1 with (Z.ones 1). rewrite Z.land_ones by lia.
  by rewrite Z.bit0_mod.
Qed.

Lemma shiftr_land_1 (a pos : Z) :
  0 <= pos -> Z.land (Z.shiftr a pos) 1 = Z.b2z (Z.testbit a pos).
Proof.
  intros Hpos. rewrite land_1_b2z, Z.shiftr_spec by lia. by rewrite Z.add_0_l.
Qed.

Lemma lxor_b2z (b c : bool) : Z.lxor (Z.b2z b) (Z.b2z c) = Z.b2z (xorb b c).
Proof. by destruct b, c. Qed.

Lemma b2z_high_bits (b : bool) (i : Z) : 0 < i -> Z.testbit (Z.b2z b) i = false.
Proof.
  intros Hi. apply (Z.bounded_iff_bits_nonneg 1 (Z.b2z b)); [lia | | | lia].
  - destruct b; simpl; lia.
  - destruct b; simpl; lia.
Qed.

Lemma feedback_loop_spec (state : Z) (taps : list Z) (b : bool) :
  Forall (fun pos => 0 <= pos) taps ->
  feedback_loop state taps (Z.b2z b)
  = Ret (Z.b2z (xorb b (xor_bits state taps))).
Proof.
  intros Htaps. revert b.
  induction Htaps as [|pos taps Hpos _ IH]; intros b; simpl.
  - by rewrite xorb_false_r.
  - rewrite rshift_ok by done. simpl.
    rewrite shiftr_land_1, lxor_b2z, IH by done.
    by rewrite xorb_assoc.
Qed.

(** The transition in closed form, for any integer [state]. *)
Lemma lfsr_next_bit_eq (state width : Z) (taps : list Z) :
  1 <= width ->
  Forall (fun pos => 0 <= pos) taps ->
  lfsr_next_bit state width taps
  = Ret (Z.b2z (Z.testbit state 0),
         Z.land (Z.lor (Z.shiftr state 1)
                       (Z.shiftl (Z.b2z (xor_bits state taps)) (width - 1)))
                (Z.ones width)).
Proof.
  intros Hw Htaps. unfold lfsr_next_bit.
  change 0 with (Z.b2z false) at 1.
  rewrite feedback_loop_spec by done. cbn [bind].
  rewrite rshift_ok by lia. cbn [bind].
  rewrite lshift_ok by lia. cbn [bind].
  rewrite lshift_ok by lia. cbn [bind xorb].
  by rewrite land_1_b2z, Z.shiftl_1_l, Z.ones_equiv, <- Z.sub_1_r.
Qed.

Lemma next_state_bits (state width : Z) (fb : bool) (i : Z) :
  1 <= width -> 0 <= state < 2 ^ width -> 0 <= i ->
  Z.testbit (Z.land (Z.lor (Z.shiftr state 1) (Z.shiftl (Z.b2z fb) (width - 1)))
                    (Z.ones width)) i
  = if i <? width - 1 then Z.testbit state (i + 1)
    else if i =? width - 1 then fb else false.
Proof.
  intros Hw [Hs0 Hs1] Hi.
  rewrite Z.land_spec, Z.lor_spec, Z.shiftr_spec, Z.testbit_ones_nonneg by lia.
  destruct (Z.ltb_spec i (width - 1)) as [Hlt|Hge].
  - rewrite Z.shiftl_spec_low by lia.
    destruct (Z.ltb_spec i width); [|lia].
    by rewrite orb_false_r, andb_true_r.
  - assert (Z.testbit state (i + 1) = false) as ->.
    { apply (Z.bounded_iff_bits_nonneg width state); lia. }
    rewrite Z.shiftl_spec by lia. simpl.
    destruct (Z.eqb_spec i (width - 1)) as [->|Hne].
    + replace (width - 1 - (width - 1)) with 0 by lia.
      rewrite Z.b2z_bit0.
      destruct (Z.ltb_spec (width - 1) width); [|lia]. by rewrite andb_true_r.
    + rewrite b2z_high_bits by lia. reflexivity.
Qed.

Lemma next_state_range (x width : Z) :
  0 <= width -> 0 <= Z.land x (Z.ones width) < 2 ^ width.
Proof.
  intros Hw. rewrite Z.land_ones by done.
  apply Z.mod_pos_bound. by apply Z.pow_pos_nonneg.
Qed.

(** C5: on a state in [0, 2^width) with tap offsets in [0, width - 1],
    [lfsr_next_bit] returns the least-significant bit of the state and the
    state shifted right by one with the XOR of the tapped bits put at bit
    [width - 1], masked to [width] bits; the new state is in [0, 2^width). *)
Theorem lfsr_next_bit_spec (state width : Z) (taps : list Z) :
  1 <= width ->
  0 <= state < 2 ^ width ->
  Forall (fun pos => 0 <= pos <= width - 1) taps ->
  exists new : Z,
    lfsr_next_bit state width taps = Ret (Z.b2z (Z.testbit state 0), new)
    /\ new = Z.land (Z.lor (Z.shiftr state 1)
                          (Z.shiftl (Z.b2z (xor_bits state taps)) (width - 1)))
                   (Z.ones width)
    /\ (forall i : Z, 0 <= i ->
          Z.testbit new i
          = if i <? width - 1 then Z.testbit state (i + 1)
            else if i =? width - 1 then xor_bits state taps else false)
    /\ 0 <= new < 2 ^ width.
Proof.
  intros Hw Hstate Htaps. eexists. split; [|split; [reflexivity|split]].
  - apply lfsr_next_bit_eq; [done|].
    eapply Forall_impl; [exact Htaps|]. simpl. intros pos Hpos. lia.
  - intros i Hi. by apply next_state_bits.
  - apply next_state_range. lia.
Qed.

Lemma lfsr_next_bit_spec_witness :
  exists new : Z,
    lfsr_next_bit 11 4 [3; 2] = Ret (Z.b2z (Z.testbit 11 0), new)
    /\ new = Z.land (Z.lor (Z.shiftr 11 1)
                          (Z.shiftl (Z.b2z (xor_bits 11 [3; 2])) (4 - 1)))
                   (Z.ones 4)
    /\ (forall i : Z, 0 <= i ->
          Z.testbit new i
          = if i <? 4 - 1 then Z.testbit 11 (i + 1)
            else if i =? 4 - 1 then xor_bits 11 [3; 2] else false)
    /\ 0 <= new < 2 ^ 4.
Proof.
  apply (lfsr_next_bit_spec 11 4 [3; 2]); [lia | lia |].
  repeat constructor; lia.
Defined.

Example lfsr_next_bit_11 : lfsr_next_bit 11 4 [3; 2] = Ret (1, 13).
Proof. reflexivity. Qed.

(** ** [lfsr_next_byte] and [lfsr_stream]: totality and composition *)

Section ValidRegister.
Variables (width : Z) (taps : list Z).
Hypothesis width_pos : 1 <= width.
Hypothesis taps_nonneg : Forall (fun pos => 0 <= pos) taps.

Lemma lfsr_next_bit_total (state : Z) :
  exists bit new, lfsr_next_bit state width taps = Ret (bit, new).
Proof. rewrite lfsr_next_bit_eq by done. eauto. Qed.

Lemma next_byte_loop_total (idxs : list Z) (b state : Z) :
  Forall (fun i => 0 <= i) idxs ->
  exists b' state',
    next_byte_loop idxs width taps b state = Ret (b', state').
Proof.
  intros Hidxs. revert b state.
  induction Hidxs as [|i idxs Hi _ IH]; intros b state; simpl; [eauto|].
  destruct (lfsr_next_bit_total state) as (bit & new & ->). cbn [bind fst snd].
  rewrite lshift_ok by done. cbn [bind]. apply IH.
Qed.

Lemma lfsr_next_byte_total (seed : Z) :
  exists b state, lfsr_next_byte seed width taps = Ret (b, state).
Proof.
  unfold lfsr_next_byte. apply next_byte_loop_total.
  rewrite py_range_8. repeat constructor; lia.
Qed.

Lemma stream_loop_total (n : nat) (state : Z) (out : list Z) :
  exists out' state',
    stream_loop n width taps state out = Ret (out', state')
    /\ length out' = (length out + n)%nat.
Proof.
  revert state out. induction n as [|n IH]; intros state out; simpl.
  - exists out, state. split; [done | lia].
  - destruct (lfsr_next_byte_total state) as (b & st & ->). cbn [bind fst snd].
    destruct (IH st (out ++ [b])) as (out' & st' & -> & Hlen).
    exists out', st'. split; [done|]. rewrite length_app in Hlen. simpl in Hlen. lia.
Qed.

Lemma lfsr_stream_total (seed : Z) (n : nat) :
  exists l, lfsr_stream seed width taps n = Ret l /\ length l = n.
Proof.
  unfold lfsr_stream.
  destruct (stream_loop_total n seed []) as (out & st & -> & Hlen).
  exists out. split; [done|]. simpl in Hlen. lia.
Qed.

Lemma iter_next_byte_total (n : nat) (state : Z) :
  exists state', iter_next_byte n state width taps = Ret state'.
Proof.
  revert state. induction n as [|n IH]; intros state; simpl; [eauto|].
  destruct (lfsr_next_byte_total state) as (b & st & ->). cbn [bind snd].
  apply IH.
Qed.
End ValidRegister.

Lemma stream_loop_acc (n : nat) (width : Z) (taps : list Z) (state : Z)
  (out : list Z) :
  stream_loop n width taps state out
  = let* r := stream_loop n width taps state [] in
    Ret (out ++ fst r, snd r).
Proof.
  revert state out. induction n as [|n IH]; intros state out; simpl.
  - by rewrite app_nil_r.
  - destruct (lfsr_next_byte state width taps) as [[b st]|e]; [|done].
    cbn [bind fst snd]. rewrite (IH st (out ++ [b])), (IH st [b]).
    destruct (stream_loop n width taps st []) as [[l st']|e]; [|done].
    cbn [bind fst snd]. by rewrite <- app_assoc.
Qed.

Lemma stream_loop_add (n m : nat) (width : Z) (taps : list Z) (state : Z)
  (out : list Z) :
  stream_loop (n + m) width taps state out
  = let* r := stream_loop n width taps state out in
    stream_loop m width taps (snd r) (fst r).
Proof.
  revert state out. induction n as [|n IH]; intros state out; simpl; [done|].
  destruct (lfsr_next_byte state width taps) as [[b st]|e]; [|done].
  cbn [bind fst snd]. apply IH.
Qed.

Lemma iter_next_byte_stream_loop (n : nat) (width : Z) (taps : list Z)
  (state : Z) (out : list Z) :
  iter_next_byte n state width taps
  = let* r := stream_loop n width taps state out in Ret (snd r).
Proof.
  revert state out. induction n as [|n IH]; intros state out; simpl; [done|].
  destruct (lfsr_next_byte state width taps) as [[b st]|e]; [|done].
  cbn [bind fst snd]. apply IH.
Qed.

(** Splitting a stream of [n + m] bytes, whatever the outcome: the equation
    also relates the runs that raise. *)
Lemma lfsr_stream_add (seed width : Z) (taps : list Z) (n m : nat) :
  lfsr_stream seed width taps (n + m)
  = let* l1 := lfsr_stream seed width taps n in
    let* st := iter_next_byte n seed width taps in
    let* l2 := lfsr_stream st width taps m in
    Ret (l1 ++ l2).
Proof.
  unfold lfsr_stream.
  rewrite stream_loop_add, (iter_next_byte_stream_loop n width taps seed []).
  destruct (stream_loop n width taps seed []) as [[l1 st]|e]; [|done].
  cbn [bind fst snd]. rewrite stream_loop_acc.
  destruct (stream_loop m width taps st []) as [[l2 st']|e]; done.
Qed.

(** C7: the stream of [n + m] bytes is the stream of [n] bytes followed by
    the [m] bytes generated from the state that [n] calls of
    [lfsr_next_byte] reach from the seed. *)
Theorem lfsr_stream_composable (seed width : Z) (taps : list Z) (n m : nat) :
  1 <= width ->
  Forall (fun pos => 0 <= pos) taps ->
  exists (l1 l2 : list Z) (st : Z),
    lfsr_stream seed width taps n = Ret l1
    /\ length l1 = n
    /\ iter_next_byte n seed width taps = Ret st
    /\ lfsr_stream st width taps m = Ret l2
    /\ length l2 = m
    /\ lfsr_stream seed width taps (n + m) = Ret (l1 ++ l2)
    /\ take n (l1 ++ l2) = l1
    /\ drop n (l1 ++ l2) = l2.
Proof.
  intros Hw Htaps.
  destruct (lfsr_stream_total width taps Hw Htaps seed n) as (l1 & H1 & Hlen1).
  destruct (iter_next_byte_total width taps Hw Htaps n seed) as (st & Hst).
  destruct (lfsr_stream_total width taps Hw Htaps st m) as (l2 & H2 & Hlen2).
  exists l1, l2, st. rewrite lfsr_stream_add, H1, Hst. cbn [bind].
  rewrite H2. cbn [bind]. repeat split; try done.
  - by rewrite take_app_length'.
  - by rewrite drop_app_length'.
Qed.

Lemma lfsr_stream_composable_witness :
  exists (l1 l2 : list Z) (st : Z),
    lfsr_stream 11 4 [3; 2] 2 = Ret l1
    /\ length l1 = 2%nat
    /\ iter_next_byte 2 11 4 [3; 2] = Ret st
    /\ lfsr_stream st 4 [3; 2] 3 = Ret l2
    /\ length l2 = 3%nat
    /\ lfsr_stream 11 4 [3; 2] (2 + 3) = Ret (l1 ++ l2)
    /\ take 2 (l1 ++ l2) = l1
    /\ drop 2 (l1 ++ l2) = l2.
Proof.
  apply (lfsr_stream_composable 11 4 [3; 2] 2 3); [lia|].
  repeat constructor; lia.
Defined.

(** ** The all-zero state *)

Lemma xor_bits_0 (taps : list Z) : xor_bits 0 taps = false.
Proof.
  induction taps as [|pos taps IH]; simpl; [done|].
  by rewrite Z.bits_0, IH.
Qed.

Lemma lfsr_next_bit_0 (width : Z) (taps : list Z) :
  1 <= width ->
  Forall (fun pos => 0 <= pos) taps ->
  lfsr_next_bit 0 width taps = Ret (0, 0).
Proof.
  intros Hw Htaps. rewrite lfsr_next_bit_eq by done.
  rewrite xor_bits_0, Z.bits_0. cbn [Z.b2z].
  by rewrite Z.shiftr_0_l, Z.shiftl_0_l.
Qed.

Lemma lfsr_next_byte_0 (width : Z) (taps : list Z) :
  1 <= width ->
  Forall (fun pos => 0 <= pos) taps ->
  lfsr_next_byte 0 width taps = Ret (0, 0).
Proof.
  intros Hw Htaps. unfold lfsr_next_byte. rewrite py_range_8.
  cbn [next_byte_loop].
  repeat (rewrite lfsr_next_bit_0 by done; cbn [bind fst snd];
          rewrite lshift_ok by lia; cbn [bind];
          rewrite Z.shiftl_0_l; change (Z.lor 0 0) with 0).
  reflexivity.
Qed.

Lemma stream_loop_0 (n : nat) (width : Z) (taps : list Z) (out : list Z) :
  1 <= width ->
  Forall (fun pos => 0 <= pos) taps ->
  stream_loop n width taps 0 out = Ret (out ++ replicate n 0, 0).
Proof.
  intros Hw Htaps. revert out. induction n as [|n IH]; intros out; simpl.
  - by rewrite app_nil_r.
  - rewrite lfsr_next_byte_0 by done. cbn [bind fst snd].
    by rewrite IH, <- app_assoc.
Qed.

(** C9: the all-zero state is a fixed point of the transition and seed 0
    yields the all-zero stream of every length. *)
Theorem lfsr_zero_fixed_point (width : Z) (taps : list Z) :
  1 <= width ->
  Forall (fun pos => 0 <= pos) taps ->
  lfsr_next_bit 0 width taps = Ret (0, 0)
  /\ forall n : nat, lfsr_stream 0 width taps n = Ret (replicate n 0).
Proof.
  intros Hw Htaps. split; [by apply lfsr_next_bit_0|].
  intros n. unfold lfsr_stream. by rewrite stream_loop_0.
Qed.

Lemma lfsr_zero_fixed_point_witness :
  lfsr_next_bit 0 12 [10; 5] = Ret (0, 0)
  /\ forall n : nat, lfsr_stream 0 12 [10; 5] n = Ret (replicate n 0).
Proof.
  apply (lfsr_zero_fixed_point 12 [10; 5]); [lia|].
  repeat constructor; lia.
Defined.

(** ** [generate_full_keystream] *)

Lemma width1_pos : 1 <= WIDTH_REG1.
Proof. unfold WIDTH_REG1. lia. Qed.

Lemma width2_pos : 1 <= WIDTH_REG2.
Proof. unfold WIDTH_REG2. lia. Qed.

Lemma taps1_nonneg :
  Forall (fun pos => 0 <= pos) (convert_taps RAW_TAPS_REG1 WIDTH_REG1).
Proof. rewrite taps1_eq. repeat constructor; lia. Qed.

Lemma taps2_nonneg :
  Forall (fun pos => 0 <= pos) (convert_taps RAW_TAPS_REG2 WIDTH_REG2).
Proof. rewrite taps2_eq. repeat constructor; lia. Qed.

Lemma bytearray_append_mod (out : list Z) (x : Z) :
  bytearray_append out (x mod 255) = Ret (out ++ [x mod 255]).
Proof.
  unfold bytearray_append.
  pose proof (Z.mod_pos_bound x 255 ltac:(lia)) as Hx.
  destruct (Z.leb_spec 0 (x mod 255)); [|lia].
  destruct (Z.ltb_spec (x mod 255) 256); [done | lia].
Qed.

Lemma keystream_loop_zip (n : nat) (taps1 taps2 : list Z) (s1 s2 : Z)
  (out l1 l2 : list Z) (st1 st2 : Z) :
  stream_loop n WIDTH_REG1 taps1 s1 [] = Ret (l1, st1) ->
  stream_loop n WIDTH_REG2 taps2 s2 [] = Ret (l2, st2) ->
  keystream_loop n taps1 taps2 s1 s2 out
  = Ret (out ++ zip_with (fun b1 b2 => (b1 + b2) mod 255) l1 l2).
Proof.
  revert s1 s2 out l1 l2.
  induction n as [|n IH]; intros s1 s2 out l1 l2;
    cbn [stream_loop keystream_loop].
  - intros [= <- _] [= <- _]. simpl. by rewrite app_nil_r.
  - destruct (lfsr_next_byte s1 WIDTH_REG1 taps1) as [[b1 t1]|e]; [|done].
    destruct (lfsr_next_byte s2 WIDTH_REG2 taps2) as [[b2 t2]|e]; [|done].
    cbn [bind fst snd].
    rewrite (stream_loop_acc n WIDTH_REG1), (stream_loop_acc n WIDTH_REG2).
    destruct (stream_loop n WIDTH_REG1 taps1 t1 []) as [[l1' u1]|e] eqn:E1;
      [|done].
    destruct (stream_loop n WIDTH_REG2 taps2 t2 []) as [[l2' u2]|e] eqn:E2;
      [|done].
    cbn [bind fst snd]. intros [= <- <-] [= <- <-].
    rewrite bytearray_append_mod. cbn [bind].
    rewrite (IH _ _ _ _ _ E1 E2). simpl. by rewrite <- app_assoc.
Qed.

Lemma lfsr_stream_inv (seed width : Z) (taps : list Z) (n : nat) (l : list Z) :
  lfsr_stream seed width taps n = Ret l ->
  exists st, stream_loop n width taps seed [] = Ret (l, st).
Proof.
  unfold lfsr_stream.
  destruct (stream_loop n width taps seed []) as [[l' st]|e]; [|done].
  intros [= <-]. eauto.
Qed.

Lemma generate_full_keystream_zip (seed1 seed2 : Z) (n : nat) (l1 l2 : list Z) :
  lfsr_stream seed1 WIDTH_REG1 (convert_taps RAW_TAPS_REG1 WIDTH_REG1) n
  = Ret l1 ->
  lfsr_stream seed2 WIDTH_REG2 (convert_taps RAW_TAPS_REG2 WIDTH_REG2) n
  = Ret l2 ->
  generate_full_keystream seed1 seed2 n
  = Ret (zip_with (fun b1 b2 => (b1 + b2) mod 255) l1 l2).
Proof.
  intros (st1 & H1)%lfsr_stream_inv (st2 & H2)%lfsr_stream_inv.
  unfold generate_full_keystream. cbn zeta.
  by rewrite (keystream_loop_zip n _ _ _ _ [] _ _ _ _ H1 H2).
Qed.

Lemma zip_with_mod_range (l1 l2 : list Z) :
  Forall (fun b => 0 <= b <= 254)
    (zip_with (fun b1 b2 => (b1 + b2) mod 255) l1 l2).
Proof.
  revert l2. induction l1 as [|b1 l1 IH]; intros [|b2 l2]; simpl;
    try constructor; [|apply IH].
  pose proof (Z.mod_pos_bound (b1 + b2) 255 ltac:(lia)). lia.
Qed.

Lemma generate_full_keystream_range (seed1 seed2 : Z) (n : nat)
  (ks : list Z) :
  generate_full_keystream seed1 seed2 n = Ret ks ->
  Forall (fun b => 0 <= b <= 254) ks.
Proof.
  destruct (lfsr_stream_total _ _ width1_pos taps1_nonneg seed1 n)
    as (l1 & H1 & _).
  destruct (lfsr_stream_total _ _ width2_pos taps2_nonneg seed2 n)
    as (l2 & H2 & _).
  rewrite (generate_full_keystream_zip _ _ _ _ _ H1 H2). intros [= <-].
  apply zip_with_mod_range.
Qed.

(** C6: for all seeds and lengths, [generate_full_keystream] returns the
    bytewise sums modulo 255 of the two registers' streams; every byte of
    the result lies in [0, 254]. *)
Theorem generate_full_keystream_spec (seed1 seed2 : Z) (nbytes : nat) :
  exists ks l1 l2 : list Z,
    generate_full_keystream seed1 seed2 nbytes = Ret ks
    /\ lfsr_stream seed1 WIDTH_REG1
         (convert_taps RAW_TAPS_REG1 WIDTH_REG1) nbytes = Ret l1
    /\ lfsr_stream seed2 WIDTH_REG2
         (convert_taps RAW_TAPS_REG2 WIDTH_REG2) nbytes = Ret l2
    /\ length l1 = nbytes /\ length l2 = nbytes /\ length ks = nbytes
    /\ ks = zip_with (fun b1 b2 => (b1 + b2) mod 255) l1 l2
    /\ Forall (fun b => 0 <= b <= 254) ks.
Proof.
  destruct (lfsr_stream_total _ _ width1_pos taps1_nonneg seed1 nbytes)
    as (l1 & H1 & Hlen1).
  destruct (lfsr_stream_total _ _ width2_pos taps2_nonneg seed2 nbytes)
    as (l2 & H2 & Hlen2).
  exists (zip_with (fun b1 b2 => (b1 + b2) mod 255) l1 l2), l1, l2.
  repeat split; try done.
  - by apply generate_full_keystream_zip.
  - rewrite length_zip_with_l_eq; congruence.
  - apply zip_with_mod_range.
Qed.

(** ** The dictionary built by [mitm_recover_seeds] *)

Lemma list_find_cons {A : Type} (P : A -> Prop) `{forall x, Decision (P x)}
  (x : A) (l : list A) :
  list_find P (x :: l)
  = if decide (P x) then Some (0%nat, x) else prod_map S id <$> list_find P l.
Proof. reflexivity. Qed.

Lemma snd_prod_map_find {A : Type} (o : option (nat * A)) :
  snd <$> (prod_map S id <$> o) = snd <$> o.
Proof. by destruct o as [[i y]|]. Qed.

(** First hit of a search through [range(stop)]: the smallest integer of the
    range with the property. *)
Lemma list_find_py_range_Some (P : Z -> Prop) `{forall x, Decision (P x)}
  (stop : Z) (i : nat) (x : Z) :
  list_find P (py_range stop) = Some (i, x) ->
  0 <= x < stop /\ P x /\ forall y, 0 <= y < x -> ~ P y.
Proof.
  unfold py_range. intros (Hi & HP & Hmin)%list_find_Some.
  apply lookup_seqZ in Hi as [-> Hi]. repeat split; [lia | lia | done |].
  intros y Hy. apply (Hmin (Z.to_nat y)); [|lia].
  apply lookup_seqZ. lia.
Qed.

Lemma list_find_py_range_least (P : Z -> Prop) `{forall x, Decision (P x)}
  (stop x : Z) :
  0 <= x < stop -> P x -> (forall y, 0 <= y < x -> ~ P y) ->
  list_find P (py_range stop) = Some (Z.to_nat x, x).
Proof.
  unfold py_range. intros Hx HP Hmin. apply list_find_Some.
  split; [apply lookup_seqZ; lia|]. split; [done|].
  intros j y [-> Hj]%lookup_seqZ Hlt. apply Hmin. lia.
Qed.

Lemma list_find_py_range_None (P : Z -> Prop) `{forall x, Decision (P x)}
  (stop : Z) :
  list_find P (py_range stop) = None <-> forall y, 0 <= y < stop -> ~ P y.
Proof.
  unfold py_range. rewrite list_find_None, Forall_seqZ.
  split; intros Hall y Hy; apply Hall; lia.
Qed.

Section Recovery.
Local Abbreviation taps1 := (convert_taps RAW_TAPS_REG1 WIDTH_REG1).
Local Abbreviation taps2 := (convert_taps RAW_TAPS_REG2 WIDTH_REG2).

(** After the loop, a key maps to what it mapped to before, and a new key
    to the first seed of the list that produces it. *)
Lemma build_table_lookup (seeds : list Z) (n : nat) (tbl0 : gmap (list Z) Z) :
  exists tbl,
    build_table seeds taps2 n tbl0 = Ret tbl
    /\ forall key,
        tbl !! key
        = match tbl0 !! key with
          | Some v => Some v
          | None =>
              snd <$> list_find
                (fun s => lfsr_stream s WIDTH_REG2 taps2 n = Ret key) seeds
          end.
Proof.
  revert tbl0. induction seeds as [|s seeds IH]; intros tbl0;
    cbn [build_table].
  - exists tbl0. split; [done|]. intros key. by destruct (tbl0 !! key).
  - destruct (lfsr_stream_total _ _ width2_pos taps2_nonneg s n)
      as (seq2 & Hs & _).
    rewrite Hs. cbn [bind].
    destruct (IH (match tbl0 !! seq2 with
                  | None => <[seq2:=s]> tbl0
                  | Some _ => tbl0
                  end)) as (tbl & -> & Htbl).
    exists tbl. split; [done|]. intros key.
    rewrite Htbl, list_find_cons, Hs.
    destruct (decide (Ret seq2 = Ret key)) as [[= ->]|Hne].
    + destruct (tbl0 !! key) eqn:E; [by rewrite E|].
      by rewrite lookup_insert_eq.
    + assert (seq2 <> key) as Hne' by congruence.
      rewrite snd_prod_map_find.
      destruct (tbl0 !! seq2) eqn:E; [done|].
      by rewrite lookup_insert_ne.
Qed.

Lemma search_seed1_find (seeds : list Z) (h : list Z)
  (tbl : gmap (list Z) Z) :
  search_seed1 seeds taps1 h (length h) tbl
  = Ret (match list_find (fun s1 => is_Some (tbl !! needed_for h s1)) seeds
         with
         | Some (_, s1) => pair s1 <$> tbl !! needed_for h s1
         | None => None
         end).
Proof.
  induction seeds as [|s seeds IH]; cbn [search_seed1]; [done|].
  destruct (lfsr_stream_total _ _ width1_pos taps1_nonneg s (length h))
    as (seq1 & Hs & _).
  rewrite Hs. cbn [bind].
  assert (needed_for h s = needed_seq2 h seq1) as Hn.
  { unfold needed_for. by rewrite Hs. }
  rewrite list_find_cons, Hn.
  destruct (tbl !! needed_seq2 h seq1) as [s2|] eqn:E.
  - destruct (decide (is_Some (Some s2))) as [_|Hno].
    + by rewrite Hn, E.
    + exfalso. apply Hno. eauto.
  - destruct (decide (is_Some (@None Z))) as [[x Hx]|_]; [done|].
    rewrite IH.
    by destruct (list_find _ seeds) as [[i y]|].
Qed.

Lemma mitm_unfold (h : list Z) :
  mitm_recover_seeds h
  = let* tbl :=
      build_table (py_range (2 ^ WIDTH_REG2)) taps2 (length h) ∅ in
    search_seed1 (py_range (2 ^ WIDTH_REG1)) taps1 h (length h) tbl.
Proof.
  unfold mitm_recover_seeds. cbn zeta.
  rewrite (lshift_ok 1 WIDTH_REG1) by (unfold WIDTH_REG1; lia). cbn [bind].
  rewrite (lshift_ok 1 WIDTH_REG2) by (unfold WIDTH_REG2; lia). cbn [bind].
  by rewrite !Z.shiftl_1_l.
Qed.

(** The table of a search over headers of length [n]. *)
Lemma table_exists (n : nat) :
  exists tbl,
    build_table (py_range (2 ^ WIDTH_REG2)) taps2 n ∅ = Ret tbl
    /\ forall key,
        tbl !! key
        = snd <$> list_find
            (fun s => lfsr_stream s WIDTH_REG2 taps2 n = Ret key)
            (py_range (2 ^ WIDTH_REG2)).
Proof.
  destruct (build_table_lookup (py_range (2 ^ WIDTH_REG2)) n ∅)
    as (tbl & Hb & Htbl).
  exists tbl. split; [done|]. intros key.
  by rewrite Htbl, lookup_empty.
Qed.

Lemma table_lookup_Some (n : nat) (tbl : gmap (list Z) Z) (key : list Z)
  (s2 : Z) :
  build_table (py_range (2 ^ WIDTH_REG2)) taps2 n ∅ = Ret tbl ->
  tbl !! key = Some s2 <->
  0 <= s2 < 2 ^ WIDTH_REG2
  /\ lfsr_stream s2 WIDTH_REG2 taps2 n = Ret key
  /\ forall s, 0 <= s < s2 -> lfsr_stream s WIDTH_REG2 taps2 n <> Ret key.
Proof.
  intros Hb. destruct (table_exists n) as (tbl' & Hb' & Htbl).
  assert (tbl' = tbl) as -> by congruence.
  rewrite Htbl. split.
  - destruct (list_find _ _) as [[i x]|] eqn:E; [|done].
    intros [= <-]. by apply list_find_py_range_Some in E.
  - intros (Hr & Hs & Hmin).
    by rewrite (list_find_py_range_least _ _ s2 Hr Hs Hmin).
Qed.

Lemma table_lookup_None (n : nat) (tbl : gmap (list Z) Z) (key : list Z) :
  build_table (py_range (2 ^ WIDTH_REG2)) taps2 n ∅ = Ret tbl ->
  tbl !! key = None <->
  forall s, 0 <= s < 2 ^ WIDTH_REG2 ->
            lfsr_stream s WIDTH_REG2 taps2 n <> Ret key.
Proof.
  intros Hb. destruct (table_exists n) as (tbl' & Hb' & Htbl).
  assert (tbl' = tbl) as -> by congruence.
  rewrite Htbl, fmap_None. apply list_find_py_range_None.
Qed.

Lemma needed_for_eq (h : list Z) (s1 : Z) (seq1 : list Z) :
  lfsr_stream s1 WIDTH_REG1 taps1 (length h) = Ret seq1 ->
  needed_for h s1 = needed_seq2 h seq1.
Proof. intros Hs. unfold needed_for. by rewrite Hs. Qed.

(** The search never raises. *)
Lemma mitm_total (h : list Z) :
  exists r, mitm_recover_seeds h = Ret r.
Proof.
  rewrite mitm_unfold.
  destruct (table_exists (length h)) as (tbl & -> & _). cbn [bind].
  rewrite search_seed1_find. eauto.
Qed.

(** What a returned pair satisfies. *)
Lemma mitm_found_inv (h : list Z) (s1 s2 : Z) :
  mitm_recover_seeds h = Ret (Some (s1, s2)) ->
  exists (tbl : gmap (list Z) Z) (seq1 : list Z),
    build_table (py_range (2 ^ WIDTH_REG2)) taps2 (length h) ∅ = Ret tbl
    /\ 0 <= s1 < 2 ^ WIDTH_REG1
    /\ lfsr_stream s1 WIDTH_REG1 taps1 (length h) = Ret seq1
    /\ length seq1 = length h
    /\ tbl !! needed_seq2 h seq1 = Some s2
    /\ (forall s seq, 0 <= s < s1 ->
          lfsr_stream s WIDTH_REG1 taps1 (length h) = Ret seq ->
          tbl !! needed_seq2 h seq = None)
    /\ 0 <= s2 < 2 ^ WIDTH_REG2
    /\ lfsr_stream s2 WIDTH_REG2 taps2 (length h) = Ret (needed_seq2 h seq1)
    /\ (forall s, 0 <= s < s2 ->
          lfsr_stream s WIDTH_REG2 taps2 (length h)
          <> Ret (needed_seq2 h seq1)).
Proof.
  rewrite mitm_unfold.
  destruct (table_exists (length h)) as (tbl & Hb & _). rewrite Hb.
  cbn [bind]. rewrite search_seed1_find.
  destruct (list_find _ _) as [[i x]|] eqn:E; [|done].
  apply list_find_py_range_Some in E as (Hr & [v Hv] & Hmin).
  rewrite Hv. intros [= -> ->].
  destruct (lfsr_stream_total _ _ width1_pos taps1_nonneg s1 (length h))
    as (seq1 & Hs & Hlen).
  rewrite (needed_for_eq h s1 seq1 Hs) in Hv.
  pose proof (proj1 (table_lookup_Some _ _ _ _ Hb) Hv) as (Hr2 & Hs2 & Hmin2).
  exists tbl, seq1. repeat split; try done; try lia.
  intros s seq Hlt Hseq. specialize (Hmin s Hlt).
  rewrite (needed_for_eq h s seq Hseq) in Hmin.
  destruct (tbl !! needed_seq2 h seq); [|done].
  exfalso. apply Hmin. eauto.
Qed.

(** Conditions under which a given pair is the one returned. *)
Lemma mitm_found (h : list Z) (s1 s2 : Z) (seq1 : list Z) :
  0 <= s1 < 2 ^ WIDTH_REG1 ->
  0 <= s2 < 2 ^ WIDTH_REG2 ->
  lfsr_stream s1 WIDTH_REG1 taps1 (length h) = Ret seq1 ->
  lfsr_stream s2 WIDTH_REG2 taps2 (length h) = Ret (needed_seq2 h seq1) ->
  (forall s, 0 <= s < s2 ->
     lfsr_stream s WIDTH_REG2 taps2 (length h) <> Ret (needed_seq2 h seq1)) ->
  (forall s t, 0 <= s < s1 -> 0 <= t < 2 ^ WIDTH_REG2 ->
     lfsr_stream t WIDTH_REG2 taps2 (length h) <> Ret (needed_for h s)) ->
  mitm_recover_seeds h = Ret (Some (s1, s2)).
Proof.
  intros Hr1 Hr2 Hs1 Hs2 Hmin2 Hmin1. rewrite mitm_unfold.
  destruct (table_exists (length h)) as (tbl & Hb & _). rewrite Hb.
  cbn [bind]. rewrite search_seed1_find.
  assert (tbl !! needed_for h s1 = Some s2) as Hhit.
  { rewrite (needed_for_eq h s1 seq1 Hs1).
    by apply (table_lookup_Some _ _ _ _ Hb). }
  rewrite (list_find_py_range_least _ _ s1); [by rewrite Hhit | done | eauto |].
  intros s Hs [v Hv].
  apply (table_lookup_Some _ _ _ _ Hb) in Hv as (Hv1 & Hv2 & _).
  by apply (Hmin1 s v).
Qed.

(** Conditions under which the search ends without a hit. *)
Lemma mitm_not_found (h : list Z) :
  (forall s t, 0 <= s < 2 ^ WIDTH_REG1 -> 0 <= t < 2 ^ WIDTH_REG2 ->
     lfsr_stream t WIDTH_REG2 taps2 (length h) <> Ret (needed_for h s)) ->
  mitm_recover_seeds h = Ret None.
Proof.
  intros Hno. rewrite mitm_unfold.
  destruct (table_exists (length h)) as (tbl & Hb & _). rewrite Hb.
  cbn [bind]. rewrite search_seed1_find.
  assert (list_find (fun s1 => is_Some (tbl !! needed_for h s1))
            (py_range (2 ^ WIDTH_REG1)) = None) as ->; [|done].
  apply list_find_py_range_None. intros s Hs [v Hv].
  apply (table_lookup_Some _ _ _ _ Hb) in Hv as (Hv1 & Hv2 & _).
  by apply (Hno s v).
Qed.
End Recovery.

(** ** What [mitm_recover_seeds] returns *)

Lemma needed_seq2_range (h seq1 : list Z) :
  Forall (fun b => 0 <= b <= 254) (needed_seq2 h seq1).
Proof.
  unfold needed_seq2. revert seq1.
  induction h as [|k h IH]; intros [|b1 seq1]; simpl;
    try constructor; [|apply IH].
  pose proof (Z.mod_pos_bound (k - b1) 255 ltac:(lia)). lia.
Qed.

(** Adding the stream of register 1 back to the needed sequence gives the
    header, byte for byte, when the header bytes are residues modulo 255. *)
Lemma add_needed_seq2 (h seq1 : list Z) :
  Forall (fun b => 0 <= b <= 254) h ->
  length seq1 = length h ->
  zip_with (fun b1 b2 => (b1 + b2) mod 255) seq1 (needed_seq2 h seq1) = h.
Proof.
  unfold needed_seq2. intros Hh. revert seq1.
  induction Hh as [|k h Hk _ IH]; intros [|b1 seq1] Hlen; simpl in *;
    try done.
  rewrite IH by lia. f_equal.
  rewrite Z.add_mod_idemp_r by lia.
  replace (b1 + (k - b1)) with k by lia. apply Z.mod_small. lia.
Qed.

Example mitm_header_3 : mitm_recover_seeds [3] = Ret (Some (0, 3)).
Proof.
  apply (mitm_found [3] 0 3 [0]).
  - change (2 ^ WIDTH_REG1) with 4096. lia.
  - change (2 ^ WIDTH_REG2) with 524288. lia.
  - vm_compute. reflexivity.
  - vm_compute. reflexivity.
  - intros s Hs. assert (s = 0 \/ s = 1 \/ s = 2) as Hcases by lia.
    destruct Hcases as [Hc|[Hc|Hc]]; subst s; vm_compute; discriminate.
  - intros s t Hs. lia.
Qed.

Lemma needed_seq2_lookup (header seq : list Z) (i : nat) (k b1 : Z) :
  header !! i = Some k -> seq !! i = Some b1 ->
  needed_seq2 header seq !! i = Some ((k - b1) mod 255).
Proof.
  intros Hk Hb. unfold needed_seq2. apply lookup_zip_with_Some. eauto.
Qed.

Lemma needed_seq2_length (header seq : list Z) :
  length seq = length header ->
  length (needed_seq2 header seq) = length header.
Proof.
  intros Hlen. unfold needed_seq2. by rewrite length_zip_with_l_eq.
Qed.

(** The list whose byte [i] is [(header[i] - seq[i]) mod 255] is the one the
    inner loop builds. *)
Lemma needed_seq2_unique (header seq nd : list Z) :
  length seq = length header ->
  length nd = length header ->
  (forall (i : nat) (k b1 : Z),
     header !! i = Some k -> seq !! i = Some b1 ->
     nd !! i = Some ((k - b1) mod 255)) ->
  nd = needed_seq2 header seq.
Proof.
  intros Hseq Hnd Hbytes. apply list_eq. intros i.
  destruct (decide (i < length header)%nat) as [Hlt|Hge].
  - destruct (lookup_lt_is_Some_2 header i Hlt) as [k Hk].
    destruct (lookup_lt_is_Some_2 seq i ltac:(lia)) as [b1 Hb].
    by rewrite (Hbytes i k b1 Hk Hb), (needed_seq2_lookup _ _ _ _ _ Hk Hb).
  - rewrite !lookup_ge_None_2; [done | |lia].
    rewrite needed_seq2_length by done. lia.
Qed.

(** C1: when the search returns [(seed1, seed2)], let [needed] be the list
    with [needed[i] = (header[i] - seq1[i]) mod 255] for the stream [seq1] of
    [seed1].  Then [seed1] is the smallest seed in [0, 2^12) whose needed
    sequence is a key of the table, and [seed2], the value the table keeps
    for [needed], is the smallest seed in [0, 2^19) whose first [n] bytes
    are [needed]. *)
Theorem mitm_returns_smallest (header : list Z) (seed1 seed2 : Z) :
  mitm_recover_seeds header = Ret (Some (seed1, seed2)) ->
  exists (tbl : gmap (list Z) Z) (seq1 needed : list Z),
    build_table (py_range (2 ^ WIDTH_REG2))
      (convert_taps RAW_TAPS_REG2 WIDTH_REG2) (length header) ∅ = Ret tbl
    /\ 0 <= seed1 < 2 ^ WIDTH_REG1
    /\ lfsr_stream seed1 WIDTH_REG1 (convert_taps RAW_TAPS_REG1 WIDTH_REG1)
         (length header) = Ret seq1
    /\ length needed = length header
    /\ (forall (i : nat) (k b1 : Z),
          header !! i = Some k -> seq1 !! i = Some b1 ->
          needed !! i = Some ((k - b1) mod 255))
    /\ tbl !! needed = Some seed2
    /\ (forall (s : Z) (seq nd : list Z),
          0 <= s < seed1 ->
          lfsr_stream s WIDTH_REG1 (convert_taps RAW_TAPS_REG1 WIDTH_REG1)
            (length header) = Ret seq ->
          length nd = length header ->
          (forall (i : nat) (k b1 : Z),
             header !! i = Some k -> seq !! i = Some b1 ->
             nd !! i = Some ((k - b1) mod 255)) ->
          tbl !! nd = None)
    /\ 0 <= seed2 < 2 ^ WIDTH_REG2
    /\ lfsr_stream seed2 WIDTH_REG2 (convert_taps RAW_TAPS_REG2 WIDTH_REG2)
         (length header) = Ret needed
    /\ (forall s : Z, 0 <= s < seed2 ->
          lfsr_stream s WIDTH_REG2 (convert_taps RAW_TAPS_REG2 WIDTH_REG2)
            (length header) <> Ret needed).
Proof.
  intros Hm.
  destruct (mitm_found_inv header seed1 seed2 Hm)
    as (tbl & seq1 & Hb & Hr1 & Hs1 & Hlen & Hhit & Hmin1 & Hr2 & Hs2 & Hmin2).
  exists tbl, seq1, (needed_seq2 header seq1).
  split; [done|]. split; [lia|]. split; [done|].
  split; [by apply needed_seq2_length|].
  split; [intros i k b1; apply needed_seq2_lookup|].
  split; [done|]. split; [|split; [lia|split; done]].
  intros s seq nd Hs Hseq Hnd Hbytes.
  destruct (lfsr_stream_total _ _ width1_pos taps1_nonneg s (length header))
    as (seq' & Hseq' & Hlen').
  assert (seq' = seq) as -> by congruence.
  rewrite (needed_seq2_unique header seq nd Hlen' Hnd Hbytes).
  by apply (Hmin1 s seq).
Qed.

(** C10: the stream of a returned [seed2] has every byte in [0, 254]; a seed
    of register 2 with a byte 255 among its first [n] bytes is never
    returned. *)
Theorem mitm_seed2_never_255 (header : list Z) (seed1 seed2 : Z) :
  mitm_recover_seeds header = Ret (Some (seed1, seed2)) ->
  exists seq2 : list Z,
    lfsr_stream seed2 WIDTH_REG2 (convert_taps RAW_TAPS_REG2 WIDTH_REG2)
      (length header) = Ret seq2
    /\ Forall (fun b => 0 <= b <= 254) seq2
    /\ 255 ∉ seq2.
Proof.
  intros Hm.
  destruct (mitm_found_inv header seed1 seed2 Hm)
    as (tbl & seq1 & _ & _ & _ & _ & _ & _ & _ & Hs2 & _).
  exists (needed_seq2 header seq1). split; [done|].
  pose proof (needed_seq2_range header seq1) as Hrange.
  split; [done|]. intros Hin.
  rewrite Forall_forall in Hrange. specialize (Hrange 255 Hin). lia.
Qed.

Lemma mitm_seed2_never_255_witness :
  exists seq2 : list Z,
    lfsr_stream 3 WIDTH_REG2 (convert_taps RAW_TAPS_REG2 WIDTH_REG2)
      (length [3]) = Ret seq2
    /\ Forall (fun b => 0 <= b <= 254) seq2
    /\ 255 ∉ seq2.
Proof.
  apply (mitm_seed2_never_255 [3] 0 3). exact mitm_header_3.
Defined.

(** A returned pair regenerates the header up to reduction modulo 255. *)
Lemma mitm_found_keystream (h : list Z) (s1 s2 : Z) :
  mitm_recover_seeds h = Ret (Some (s1, s2)) ->
  0 <= s1 < 2 ^ WIDTH_REG1 /\ 0 <= s2 < 2 ^ WIDTH_REG2
  /\ generate_full_keystream s1 s2 (length h)
     = Ret (map (fun k => k mod 255) h).
Proof.
  intros Hm.
  destruct (mitm_found_inv h s1 s2 Hm)
    as (tbl & seq1 & _ & Hr1 & Hs1 & Hlen & _ & _ & Hr2 & Hs2 & _).
  split; [done|]. split; [done|].
  rewrite (generate_full_keystream_zip _ _ _ _ _ Hs1 Hs2). f_equal.
  clear -Hlen. unfold needed_seq2. revert seq1 Hlen.
  induction h as [|k h IH]; intros [|b1 seq1] Hlen; simpl in *; try done.
  rewrite IH by lia. f_equal.
  rewrite Z.add_mod_idemp_r by lia. f_equal. lia.
Qed.

(** C3 fails on the code: no seed pair produces the header [255], whose byte
    is outside the range of the combiner, and the search returns the pair
    [(0, 0)] for it. *)
Lemma mitm_unproducible_header_cex :
  (forall s1 s2 : Z, generate_full_keystream s1 s2 (length [255]) <> Ret [255])
  /\ mitm_recover_seeds [255] = Ret (Some (0, 0)).
Proof.
  split.
  - intros s1 s2 Hgen.
    apply generate_full_keystream_range, Forall_cons in Hgen as [Hb _]. lia.
  - apply (mitm_found [255] 0 0 [0]).
    + change (2 ^ WIDTH_REG1) with 4096. lia.
    + change (2 ^ WIDTH_REG2) with 524288. lia.
    + vm_compute. reflexivity.
    + vm_compute. reflexivity.
    + intros s Hs. lia.
    + intros s t Hs. lia.
Qed.

(** C3, amended: for a header with every byte in [0, 254] that no seed pair
    within the two widths produces, the search goes through every seed of
    register 1 and returns [None]; it does not raise. *)
Theorem mitm_not_found_when_unproducible (header : list Z) :
  Forall (fun b => 0 <= b <= 254) header ->
  (forall s1 s2 : Z,
     0 <= s1 < 2 ^ WIDTH_REG1 -> 0 <= s2 < 2 ^ WIDTH_REG2 ->
     generate_full_keystream s1 s2 (length header) <> Ret header) ->
  mitm_recover_seeds header = Ret None.
Proof.
  intros Hh Hnone.
  destruct (mitm_total header) as ([[s1 s2]|] & Hm); [|done].
  exfalso.
  destruct (mitm_found_keystream header s1 s2 Hm) as (Hr1 & Hr2 & Hgen).
  apply (Hnone s1 s2 Hr1 Hr2). rewrite Hgen. f_equal.
  clear -Hh. induction Hh as [|k h Hk _ IH]; simpl; [done|].
  rewrite IH. f_equal. apply Z.mod_small. lia.
Qed.

(** ** The register as arithmetic

    On a state in [0, 2^width) the transition is a halving plus the feedback
    bit times [2^(width-1)]; eight transitions hand out the low byte of the
    state. *)

Lemma next_state_arith (state width : Z) (fb : bool) :
  1 <= width -> 0 <= state < 2 ^ width ->
  Z.land (Z.lor (Z.shiftr state 1) (Z.shiftl (Z.b2z fb) (width - 1)))
         (Z.ones width)
  = state / 2 + Z.b2z fb * 2 ^ (width - 1).
Proof.
  intros Hw [Hs0 Hs1].
  assert (2 ^ width = 2 * 2 ^ (width - 1)) as Hpow.
  { rewrite <- Z.pow_succ_r by lia. f_equal. lia. }
  assert (0 < 2 ^ (width - 1)) as Hpos by (apply Z.pow_pos_nonneg; lia).
  assert (0 <= state / 2 < 2 ^ (width - 1)) as Hhalf.
  { split; [apply Z.div_pos; lia|]. apply Z.div_lt_upper_bound; lia. }
  rewrite Z.shiftr_div_pow2, Z.shiftl_mul_pow2 by lia.
  change (2 ^ 1) with 2.
  rewrite <- Z.add_nocarry_lor.
  - rewrite Z.land_ones by lia. apply Z.mod_small.
    destruct fb; simpl; lia.
  - apply Z.bits_inj'. intros n Hn. rewrite Z.land_spec, Z.bits_0.
    destruct (decide (n < width - 1)) as [Hlt|Hge].
    + rewrite Z.mul_pow2_bits_low by lia. apply andb_false_r.
    + assert (Z.testbit (state / 2) n = false) as ->; [|done].
      apply (Z.bounded_iff_bits_nonneg (width - 1) (state / 2)); lia.
Qed.

Lemma lor_shifted_bit (b bit i : Z) :
  0 <= i -> 0 <= b < 2 ^ i ->
  Z.lor b (Z.shiftl bit i) = b + bit * 2 ^ i.
Proof.
  intros Hi Hb. rewrite Z.shiftl_mul_pow2 by lia.
  symmetry. apply Z.add_nocarry_lor.
  apply Z.bits_inj'. intros n Hn. rewrite Z.land_spec, Z.bits_0.
  destruct (decide (n < i)) as [Hlt|Hge].
  - rewrite Z.mul_pow2_bits_low by lia. apply andb_false_r.
  - assert (Z.testbit b n = false) as ->; [|done].
    apply (Z.bounded_iff_bits_nonneg i b); lia.
Qed.

Lemma lfsr_next_bit_arith (state width : Z) (taps : list Z) :
  1 <= width ->
  Forall (fun pos => 0 <= pos) taps ->
  0 <= state < 2 ^ width ->
  exists fb : bool,
    lfsr_next_bit state width taps
    = Ret (state mod 2, state / 2 + Z.b2z fb * 2 ^ (width - 1)).
Proof.
  intros Hw Htaps Hs. exists (xor_bits state taps).
  rewrite lfsr_next_bit_eq by done.
  by rewrite next_state_arith, Z.bit0_mod by done.
Qed.

Lemma next_byte_loop_arith (width : Z) (taps : list Z) (len : nat) :
  1 <= width ->
  Forall (fun pos => 0 <= pos) taps ->
  forall i b state : Z,
    0 <= i -> Z.of_nat len <= width ->
    0 <= b < 2 ^ i -> 0 <= state < 2 ^ width ->
    exists k : Z,
      0 <= k < 2 ^ Z.of_nat len
      /\ next_byte_loop (seqZ i (Z.of_nat len)) width taps b state
         = Ret (b + 2 ^ i * (state mod 2 ^ Z.of_nat len),
                state / 2 ^ Z.of_nat len + k * 2 ^ (width - Z.of_nat len)).
Proof.
  intros Hw Htaps. induction len as [|len IH]; intros i b st Hi Hlen Hb Hst.
  - exists 0. split; [simpl; lia|]. simpl.
    rewrite Z.mod_1_r, Z.div_1_r. do 2 f_equal; lia.
  - rewrite seqZ_cons by lia. cbn [next_byte_loop].
    destruct (lfsr_next_bit_arith st width taps Hw Htaps Hst) as (fb & ->).
    cbn [bind fst snd]. rewrite lshift_ok by lia. cbn [bind].
    replace (Z.pred (Z.of_nat (S len))) with (Z.of_nat len) by lia.
    set (L := 2 ^ Z.of_nat len).
    set (M := 2 ^ (width - 1 - Z.of_nat len)).
    assert (0 < L) as HL by (apply Z.pow_pos_nonneg; lia).
    assert (0 < M) as HM by (apply Z.pow_pos_nonneg; lia).
    assert (2 ^ (width - 1) = M * L) as HML.
    { unfold M, L. rewrite <- Z.pow_add_r by lia. f_equal. lia. }
    assert (2 ^ width = 2 * (M * L)) as Hwpow.
    { rewrite <- HML, <- Z.pow_succ_r by lia. f_equal. lia. }
    assert (2 ^ Z.of_nat (S len) = 2 * L) as HSL.
    { unfold L. rewrite <- Z.pow_succ_r by lia. f_equal. lia. }
    assert (2 ^ (width - Z.of_nat len) = 2 * M) as H2M.
    { unfold M. rewrite <- Z.pow_succ_r by lia. f_equal. lia. }
    assert (2 ^ (width - Z.of_nat (S len)) = M) as HM'.
    { unfold M. f_equal. lia. }
    assert (2 ^ Z.succ i = 2 * 2 ^ i) as HSi by (apply Z.pow_succ_r; lia).
    assert (0 < 2 ^ i) as Hpi by (apply Z.pow_pos_nonneg; lia).
    pose proof (Z.mod_pos_bound st 2 ltac:(lia)) as Hbit.
    assert (0 <= st / 2 < M * L) as Hhalf.
    { split; [apply Z.div_pos; lia|]. apply Z.div_lt_upper_bound; lia. }
    rewrite lor_shifted_bit by lia.
    destruct (IH (Z.succ i) (b + st mod 2 * 2 ^ i)
                (st / 2 + Z.b2z fb * 2 ^ (width - 1)))
      as (k & Hk & ->); [lia | lia | | |].
    + rewrite HSi. nia.
    + rewrite HML, Hwpow. destruct fb; simpl; lia.
    + exists (Z.b2z fb + 2 * k). fold L. rewrite HSL, H2M, HM', HSi, HML.
      split; [destruct fb; simpl; lia|]. do 2 f_equal.
      * rewrite Z.mul_assoc, Z.mod_add by lia.
        rewrite (Z.rem_mul_r st 2 L) by lia. ring.
      * rewrite Z.mul_assoc, Z.div_add by lia.
        rewrite Z.div_div by lia. ring.
Qed.

Lemma lfsr_next_byte_arith (seed width : Z) (taps : list Z) :
  8 <= width ->
  Forall (fun pos => 0 <= pos) taps ->
  0 <= seed < 2 ^ width ->
  exists k : Z,
    0 <= k < 256
    /\ lfsr_next_byte seed width taps
       = Ret (seed mod 256, seed / 256 + k * 2 ^ (width - 8))
    /\ 0 <= seed / 256 + k * 2 ^ (width - 8) < 2 ^ width.
Proof.
  intros Hw Htaps Hs. unfold lfsr_next_byte, py_range.
  destruct (next_byte_loop_arith width taps 8 ltac:(lia) Htaps 0 0 seed)
    as (k & Hk & Hloop); [lia | lia | simpl; lia | done |].
  change (Z.of_nat 8) with 8 in *. change (2 ^ 8) with 256 in *.
  exists k. split; [done|]. split.
  - rewrite Hloop. do 2 f_equal. change (2 ^ 0) with 1. lia.
  - set (P := 2 ^ (width - 8)).
    assert (0 < P) as HP by (apply Z.pow_pos_nonneg; lia).
    assert (2 ^ width = 256 * P) as ->.
    { unfold P. change 256 with (2 ^ 8). rewrite <- Z.pow_add_r by lia.
      f_equal. lia. }
    assert (0 <= seed / 256 < P).
    { split; [apply Z.div_pos; lia|].
      apply Z.div_lt_upper_bound; [lia|].
      replace (256 * P) with (2 ^ width); [lia|].
      unfold P. change 256 with (2 ^ 8). rewrite <- Z.pow_add_r by lia.
      f_equal. lia. }
    nia.
Qed.

(** The first three bytes of a stream of register 2 determine its seed. *)
Lemma stream2_prefix (seed : Z) (n : nat) (l : list Z) :
  0 <= seed < 2 ^ WIDTH_REG2 ->
  lfsr_stream seed WIDTH_REG2 (convert_taps RAW_TAPS_REG2 WIDTH_REG2)
    (S (S (S n))) = Ret l ->
  exists (b0 b1 b2 : Z) (rest : list Z),
    l = b0 :: b1 :: b2 :: rest
    /\ seed = seed2_of_prefix b0 b1 b2
    /\ 0 <= b0 <= 255 /\ 0 <= b1 <= 255 /\ 0 <= b2 <= 255.
Proof.
  intros Hs (st & Hl)%lfsr_stream_inv. revert Hl. cbn [stream_loop].
  assert (8 <= WIDTH_REG2) as Hw by (unfold WIDTH_REG2; lia).
  destruct (lfsr_next_byte_arith seed _ _ Hw taps2_nonneg Hs)
    as (k0 & Hk0 & -> & Hs1).
  cbn [bind fst snd].
  destruct (lfsr_next_byte_arith _ _ _ Hw taps2_nonneg Hs1)
    as (k1 & Hk1 & -> & Hs2).
  cbn [bind fst snd].
  destruct (lfsr_next_byte_arith _ _ _ Hw taps2_nonneg Hs2)
    as (k2 & Hk2 & -> & Hs3).
  cbn [bind fst snd]. rewrite stream_loop_acc.
  destruct (stream_loop n _ _ _ []) as [[rest st']|e]; [|done].
  cbn [bind fst snd]. intros [= <- _].
  eexists _, _, _, rest. split; [reflexivity|].
  change (2 ^ WIDTH_REG2) with 524288 in *.
  change (2 ^ (WIDTH_REG2 - 8)) with 2048 in *.
  unfold seed2_of_prefix. repeat split; Z.div_mod_to_equations; lia.
Qed.

(** ** Settling concrete searches *)

Lemma no_hit_sound (h : list Z) (s1 t : Z) :
  (3 <= length h)%nat ->
  no_hit h s1 = true ->
  0 <= t < 2 ^ WIDTH_REG2 ->
  lfsr_stream t WIDTH_REG2 (convert_taps RAW_TAPS_REG2 WIDTH_REG2) (length h)
  <> Ret (needed_for h s1).
Proof.
  intros Hlen Hno Ht Heq. unfold no_hit in Hno. cbn zeta in Hno.
  destruct (length h) as [|[|[|n]]] eqn:E; try lia.
  destruct (stream2_prefix t n _ Ht Heq)
    as (b0 & b1 & b2 & rest & Hnd & -> & _).
  rewrite Hnd in Hno. cbn [hit_candidate] in Hno. rewrite <- Hnd in Hno.
  rewrite (bool_decide_eq_true_2 _ Heq) in Hno. discriminate Hno.
Qed.

Lemma mitm_not_found_by_check (h : list Z) :
  (3 <= length h)%nat ->
  forallb (no_hit h) (py_range (2 ^ WIDTH_REG1)) = true ->
  mitm_recover_seeds h = Ret None.
Proof.
  intros Hlen Hall. apply mitm_not_found. intros s t Hs Ht.
  apply no_hit_sound; [done| |done].
  rewrite forallb_forall in Hall. apply Hall.
  by apply list_elem_of_In, elem_of_py_range.
Qed.

Lemma stream2_injective_aux (n : nat) (s t : Z) :
  (3 <= n)%nat ->
  0 <= s < 2 ^ WIDTH_REG2 -> 0 <= t < 2 ^ WIDTH_REG2 ->
  lfsr_stream s WIDTH_REG2 (convert_taps RAW_TAPS_REG2 WIDTH_REG2) n
  = lfsr_stream t WIDTH_REG2 (convert_taps RAW_TAPS_REG2 WIDTH_REG2) n ->
  s = t.
Proof.
  intros Hn Hs Ht Heq. destruct n as [|[|[|n]]]; try lia.
  destruct (lfsr_stream_total _ _ width2_pos taps2_nonneg s (S (S (S n))))
    as (l & Hl & _).
  rewrite Hl in Heq. symmetry in Heq.
  destruct (stream2_prefix s n l Hs Hl) as (b0 & b1 & b2 & r & -> & -> & _).
  destruct (stream2_prefix t n _ Ht Heq)
    as (c0 & c1 & c2 & r' & [= -> -> -> _] & -> & _).
  reflexivity.
Qed.

Lemma mitm_found_by_check (h : list Z) (s1 s2 : Z) (seq1 : list Z) :
  (3 <= length h)%nat ->
  0 <= s1 < 2 ^ WIDTH_REG1 ->
  0 <= s2 < 2 ^ WIDTH_REG2 ->
  lfsr_stream s1 WIDTH_REG1 (convert_taps RAW_TAPS_REG1 WIDTH_REG1) (length h)
  = Ret seq1 ->
  lfsr_stream s2 WIDTH_REG2 (convert_taps RAW_TAPS_REG2 WIDTH_REG2) (length h)
  = Ret (needed_seq2 h seq1) ->
  forallb (no_hit h) (py_range s1) = true ->
  mitm_recover_seeds h = Ret (Some (s1, s2)).
Proof.
  intros Hlen Hr1 Hr2 Hs1 Hs2 Hall.
  apply (mitm_found h s1 s2 seq1 Hr1 Hr2 Hs1 Hs2).
  - intros s Hs Heq. rewrite <- Hs2 in Heq.
    apply stream2_injective_aux in Heq; lia.
  - intros s t Hs Ht. apply no_hit_sound; [done| |done].
    rewrite forallb_forall in Hall. apply Hall.
    by apply list_elem_of_In, elem_of_py_range.
Qed.

Example mitm_header_4 :
  mitm_recover_seeds [45; 203; 61; 149] = Ret (Some (2720, 70028)).
Proof.
  apply (mitm_found_by_check _ 2720 70028 [160; 186; 147; 151]).
  - simpl. lia.
  - change (2 ^ WIDTH_REG1) with 4096. lia.
  - change (2 ^ WIDTH_REG2) with 524288. lia.
  - vm_compute. reflexivity.
  - vm_compute. reflexivity.
  - vm_compute. reflexivity.
Qed.

Lemma mitm_returns_smallest_witness :
  exists (tbl : gmap (list Z) Z) (seq1 needed : list Z),
    build_table (py_range (2 ^ WIDTH_REG2))
      (convert_taps RAW_TAPS_REG2 WIDTH_REG2)
      (length [45; 203; 61; 149]) ∅ = Ret tbl
    /\ 0 <= 2720 < 2 ^ WIDTH_REG1
    /\ lfsr_stream 2720 WIDTH_REG1 (convert_taps RAW_TAPS_REG1 WIDTH_REG1)
         (length [45; 203; 61; 149]) = Ret seq1
    /\ length needed = length [45; 203; 61; 149]
    /\ (forall (i : nat) (k b1 : Z),
          [45; 203; 61; 149] !! i = Some k -> seq1 !! i = Some b1 ->
          needed !! i = Some ((k - b1) mod 255))
    /\ tbl !! needed = Some 70028
    /\ (forall (s : Z) (seq nd : list Z),
          0 <= s < 2720 ->
          lfsr_stream s WIDTH_REG1 (convert_taps RAW_TAPS_REG1 WIDTH_REG1)
            (length [45; 203; 61; 149]) = Ret seq ->
          length nd = length [45; 203; 61; 149] ->
          (forall (i : nat) (k b1 : Z),
             [45; 203; 61; 149] !! i = Some k -> seq !! i = Some b1 ->
             nd !! i = Some ((k - b1) mod 255)) ->
          tbl !! nd = None)
    /\ 0 <= 70028 < 2 ^ WIDTH_REG2
    /\ lfsr_stream 70028 WIDTH_REG2 (convert_taps RAW_TAPS_REG2 WIDTH_REG2)
         (length [45; 203; 61; 149]) = Ret needed
    /\ (forall s : Z, 0 <= s < 70028 ->
          lfsr_stream s WIDTH_REG2 (convert_taps RAW_TAPS_REG2 WIDTH_REG2)
            (length [45; 203; 61; 149]) <> Ret needed).
Proof.
  apply (mitm_returns_smallest [45; 203; 61; 149] 2720 70028).
  exact mitm_header_4.
Defined.

(** C2 fails on the code: the header that [generate_full_keystream] produces
    from the seeds 0 and 65280 (register 2 then emits the byte 255 at
    position 1) is a header for which the search returns [None]. *)
Theorem mitm_misses_generated_header :
  0 <= 0 < 2 ^ WIDTH_REG1 /\ 0 <= 65280 < 2 ^ WIDTH_REG2
  /\ generate_full_keystream 0 65280 4 = Ret [0; 0; 224; 123]
  /\ mitm_recover_seeds [0; 0; 224; 123] = Ret None.
Proof.
  split; [change (2 ^ WIDTH_REG1) with 4096; lia|].
  split; [change (2 ^ WIDTH_REG2) with 524288; lia|].
  split; [vm_compute; reflexivity|].
  apply mitm_not_found_by_check; [simpl; lia|].
  vm_compute. reflexivity.
Qed.

Lemma lifts_mod (c : Z) : 0 <= c <= 255 -> In c (lifts (c mod 255)).
Proof.
  intros Hc. destruct (decide (c = 255)) as [->|Hne].
  - vm_compute. auto.
  - rewrite Z.mod_small by lia. unfold lifts.
    destruct (Z.eqb_spec c 0) as [->|_]; simpl; auto.
Qed.

Lemma needed_of_sum (a c : Z) : ((a + c) mod 255 - a) mod 255 = c mod 255.
Proof. rewrite Zminus_mod_idemp_l. f_equal. lia. Qed.

Lemma no_pair_sound (h : list Z) (s1 s2 : Z) :
  (3 <= length h)%nat ->
  no_pair h s1 = true ->
  0 <= s2 < 2 ^ WIDTH_REG2 ->
  generate_full_keystream s1 s2 (length h) <> Ret h.
Proof.
  intros Hlen Hno Hs2 Hgen. unfold no_pair in Hno.
  rewrite forallb_forall in Hno. specialize (Hno s2).
  rewrite (bool_decide_eq_true_2 _ Hgen) in Hno.
  enough (In s2 (candidates (needed_for h s1))) as Hin
    by (by apply Hno in Hin).
  clear Hno.
  destruct (lfsr_stream_total _ _ width1_pos taps1_nonneg s1 (length h))
    as (l1 & H1 & Hlen1).
  destruct (lfsr_stream_total _ _ width2_pos taps2_nonneg s2 (length h))
    as (l2 & H2 & Hlen2).
  rewrite (generate_full_keystream_zip _ _ _ _ _ H1 H2) in Hgen.
  injection Hgen as Hh. rewrite (needed_for_eq h s1 l1 H1).
  destruct (length h) as [|[|[|n]]] eqn:E; try lia.
  destruct (stream2_prefix s2 n l2 Hs2 H2)
    as (c0 & c1 & c2 & rest2 & -> & -> & Hc0 & Hc1 & Hc2).
  destruct l1 as [|a0 [|a1 [|a2 rest1]]]; simpl in Hlen1; try lia.
  subst h. cbn [zip_with needed_seq2 candidates].
  rewrite !needed_of_sum.
  apply in_flat_map. exists c0. split; [by apply lifts_mod|].
  apply in_flat_map. exists c1. split; [by apply lifts_mod|].
  apply in_map. by apply lifts_mod.
Qed.

Lemma unproducible_by_check (h : list Z) :
  (3 <= length h)%nat ->
  forallb (no_pair h) (py_range (2 ^ WIDTH_REG1)) = true ->
  forall s1 s2 : Z,
    0 <= s1 < 2 ^ WIDTH_REG1 -> 0 <= s2 < 2 ^ WIDTH_REG2 ->
    generate_full_keystream s1 s2 (length h) <> Ret h.
Proof.
  intros Hlen Hall s1 s2 Hs1 Hs2. apply no_pair_sound; [done| |done].
  rewrite forallb_forall in Hall. apply Hall.
  by apply list_elem_of_In, elem_of_py_range.
Qed.

Lemma mitm_not_found_when_unproducible_witness :
  mitm_recover_seeds [0; 0; 0; 1] = Ret None.
Proof.
  apply (mitm_not_found_when_unproducible [0; 0; 0; 1]).
  - repeat constructor; lia.
  - apply unproducible_by_check; [simpl; lia|]. vm_compute. reflexivity.
Defined.

(** * Further properties of the code *)

Lemma feedback_loop_raises (state : Z) (taps : list Z) (fb : Z) :
  Exists (fun pos => pos < 0) taps ->
  feedback_loop state taps fb = Raise ValueError.
Proof.
  intros Hex. revert fb. induction taps as [|pos taps IH]; intros fb.
  - by apply Exists_nil in Hex.
  - cbn [feedback_loop]. unfold rshift.
    destruct (Z.ltb_spec pos 0) as [Hneg|Hpos]; [done|]. cbn [bind].
    apply IH. apply Exists_cons in Hex as [Hex|Hex]; [lia | done].
Qed.

Lemma lfsr_next_bit_invalid (state width : Z) (taps : list Z) :
  width <= 0 \/ Exists (fun pos => pos < 0) taps ->
  lfsr_next_bit state width taps = Raise ValueError.
Proof.
  intros Hbad. unfold lfsr_next_bit.
  destruct (decide (Exists (fun pos => pos < 0) taps)) as [Hex|Hnex].
  - by rewrite feedback_loop_raises.
  - destruct Hbad as [Hw|Hex]; [|done].
    assert (Forall (fun pos => 0 <= pos) taps) as Htaps.
    { apply Forall_forall. intros pos Hpos.
      destruct (decide (0 <= pos)) as [|Hneg]; [done|].
      exfalso. apply Hnex. apply Exists_exists. exists pos. split; [done | lia]. }
    change 0 with (Z.b2z false) at 1.
    rewrite feedback_loop_spec by done. cbn [bind].
    rewrite rshift_ok by lia. cbn [bind]. unfold lshift at 1.
    destruct (Z.ltb_spec (width - 1) 0) as [_|Hge]; [done | lia].
Qed.


Lemma lfsr_next_byte_raises (state width : Z) (taps : list Z) :
  width <= 0 \/ Exists (fun pos => pos < 0) taps ->
  lfsr_next_byte state width taps = Raise ValueError.
Proof.
  intros Hbad. unfold lfsr_next_byte. rewrite py_range_8.
  cbn [next_byte_loop]. by rewrite lfsr_next_bit_invalid.
Qed.

(** X5: a stream of no bytes is empty whatever the register; with a width
    below 1 or a negative tap offset, asking for at least one byte raises
    [ValueError]. *)
Theorem lfsr_stream_raises (seed width : Z) (taps : list Z) (n : nat) :
  width <= 0 \/ Exists (fun pos => pos < 0) taps ->
  lfsr_stream seed width taps 0 = Ret []
  /\ lfsr_stream seed width taps (S n) = Raise ValueError.
Proof.
  intros Hbad. split; [reflexivity|].
  unfold lfsr_stream. cbn [stream_loop].
  by rewrite lfsr_next_byte_raises.
Qed.

Lemma lfsr_stream_raises_witness :
  lfsr_stream 1 12 [10; -1] 0 = Ret []
  /\ lfsr_stream 1 12 [10; -1] (S 3) = Raise ValueError.
Proof.
  apply (lfsr_stream_raises 1 12 [10; -1] 3). right.
  apply Exists_cons_tl, Exists_cons_hd. lia.
Defined.

Lemma next_byte_loop_range (width : Z) (taps : list Z) (len : nat) :
  1 <= width ->
  Forall (fun pos => 0 <= pos) taps ->
  forall i b state : Z,
    0 <= i -> 0 <= b < 2 ^ i ->
    (0 < len)%nat \/ 0 <= state < 2 ^ width ->
    exists b' state' : Z,
      next_byte_loop (seqZ i (Z.of_nat len)) width taps b state
      = Ret (b', state')
      /\ 0 <= b' < 2 ^ (i + Z.of_nat len)
      /\ 0 <= state' < 2 ^ width.
Proof.
  intros Hw Htaps. induction len as [|len IH]; intros i b st Hi Hb Hst.
  - destruct Hst as [Hlen|Hst]; [lia|]. exists b, st.
    split; [reflexivity|]. by rewrite Z.add_0_r.
  - rewrite seqZ_cons by lia. cbn [next_byte_loop].
    rewrite lfsr_next_bit_eq by done. cbn [bind fst snd].
    rewrite lshift_ok by lia. cbn [bind].
    replace (Z.pred (Z.of_nat (S len))) with (Z.of_nat len) by lia.
    rewrite lor_shifted_bit by lia.
    assert (0 < 2 ^ i) as Hpi by (apply Z.pow_pos_nonneg; lia).
    assert (2 ^ Z.succ i = 2 * 2 ^ i) as HSi by (apply Z.pow_succ_r; lia).
    edestruct (IH (Z.succ i)) as (b' & st' & -> & Hb' & Hst'); [lia | |
      right; apply next_state_range; lia |].
    + rewrite HSi. destruct (Z.testbit st 0); simpl; lia.
    + exists b', st'. split; [done|]. split; [|done].
      replace (i + Z.of_nat (S len)) with (Z.succ i + Z.of_nat len) by lia.
      done.
Qed.

Lemma lfsr_next_byte_bounds (seed width : Z) (taps : list Z) :
  1 <= width ->
  Forall (fun pos => 0 <= pos) taps ->
  exists b state : Z,
    lfsr_next_byte seed width taps = Ret (b, state)
    /\ 0 <= b <= 255
    /\ 0 <= state < 2 ^ width.
Proof.
  intros Hw Htaps. unfold lfsr_next_byte, py_range.
  destruct (next_byte_loop_range width taps 8 Hw Htaps 0 0 seed)
    as (b & st & Hloop & Hb & Hst); [lia | simpl; lia | left; lia |].
  exists b, st. split; [exact Hloop|]. split; [|done].
  change (2 ^ (0 + Z.of_nat 8)) with 256 in Hb. lia.
Qed.


Lemma stream_loop_range (n : nat) (width : Z) (taps : list Z) (state : Z)
  (out : list Z) :
  1 <= width ->
  Forall (fun pos => 0 <= pos) taps ->
  Forall (fun b => 0 <= b <= 255) out ->
  exists (out' : list Z) (state' : Z),
    stream_loop n width taps state out = Ret (out', state')
    /\ length out' = (length out + n)%nat
    /\ Forall (fun b => 0 <= b <= 255) out'.
Proof.
  intros Hw Htaps. revert state out.
  induction n as [|n IH]; intros state out Hout; cbn [stream_loop].
  - exists out, state. split; [done|]. split; [lia | done].
  - destruct (lfsr_next_byte_bounds state width taps Hw Htaps)
      as (b & st & -> & Hb & _).
    cbn [bind fst snd].
    destruct (IH st (out ++ [b])) as (out' & st' & -> & Hlen & Hr).
    { apply Forall_app. split; [done|]. by apply Forall_singleton. }
    exists out', st'. split; [done|]. split; [|done].
    rewrite length_app in Hlen. simpl in Hlen. lia.
Qed.

Lemma lfsr_stream_bounds (seed width : Z) (taps : list Z) (n : nat) :
  1 <= width ->
  Forall (fun pos => 0 <= pos) taps ->
  exists l : list Z,
    lfsr_stream seed width taps n = Ret l
    /\ length l = n
    /\ Forall (fun b => 0 <= b <= 255) l.
Proof.
  intros Hw Htaps. unfold lfsr_stream.
  destruct (stream_loop_range n width taps seed [] Hw Htaps)
    as (l & st & -> & Hlen & Hr); [constructor|].
  exists l. split; [done|]. split; [|done]. simpl in Hlen. lia.
Qed.

Lemma table_roundtrip_aux (n : nat) (tbl : gmap (list Z) Z) (s : Z) :
  (3 <= n)%nat ->
  build_table (py_range (2 ^ WIDTH_REG2))
    (convert_taps RAW_TAPS_REG2 WIDTH_REG2) n ∅ = Ret tbl ->
  0 <= s < 2 ^ WIDTH_REG2 ->
  exists seq : list Z,
    lfsr_stream s WIDTH_REG2 (convert_taps RAW_TAPS_REG2 WIDTH_REG2) n
    = Ret seq
    /\ tbl !! seq = Some s.
Proof.
  intros Hn Hb Hs.
  destruct (lfsr_stream_total _ _ width2_pos taps2_nonneg s n)
    as (seq & Hseq & _).
  exists seq. split; [done|].
  apply (table_lookup_Some n tbl seq s Hb). split; [done|]. split; [done|].
  intros t Ht Heq. rewrite <- Hseq in Heq.
  apply stream2_injective_aux in Heq; lia.
Qed.

(** X13: converting twice with the same width gives the raw taps back, so
    [convert_taps] loses no information. *)
Theorem convert_taps_involutive (raw : list Z) (w : Z) :
  convert_taps (convert_taps raw w) w = raw.
Proof.
  rewrite !convert_taps_map, map_map.
  induction raw as [|t raw IH]; simpl; [done|].
  rewrite IH. f_equal. lia.
Qed.

Lemma generate_full_keystream_app (seed1 seed2 : Z) (n m : nat) :
  exists ks ks' : list Z,
    generate_full_keystream seed1 seed2 n = Ret ks
    /\ length ks = n
    /\ generate_full_keystream seed1 seed2 (n + m) = Ret (ks ++ ks').
Proof.
  pose proof width1_pos as Hw1. pose proof width2_pos as Hw2.
  pose proof taps1_nonneg as Ht1. pose proof taps2_nonneg as Ht2.
  destruct (lfsr_stream_total _ _ Hw1 Ht1 seed1 n) as (l1 & H1 & Hlen1).
  destruct (lfsr_stream_total _ _ Hw2 Ht2 seed2 n) as (l2 & H2 & Hlen2).
  destruct (iter_next_byte_total _ _ Hw1 Ht1 n seed1) as (st1 & Hst1).
  destruct (iter_next_byte_total _ _ Hw2 Ht2 n seed2) as (st2 & Hst2).
  destruct (lfsr_stream_total _ _ Hw1 Ht1 st1 m) as (l1' & H1' & _).
  destruct (lfsr_stream_total _ _ Hw2 Ht2 st2 m) as (l2' & H2' & _).
  exists (zip_with (fun b1 b2 => (b1 + b2) mod 255) l1 l2),
         (zip_with (fun b1 b2 => (b1 + b2) mod 255) l1' l2').
  split; [by apply generate_full_keystream_zip|].
  split; [rewrite length_zip_with_l_eq; congruence|].
  rewrite <- zip_with_app by congruence.
  apply generate_full_keystream_zip.
  - rewrite lfsr_stream_add, H1, Hst1. cbn [bind]. by rewrite H1'.
  - rewrite lfsr_stream_add, H2, Hst2. cbn [bind]. by rewrite H2'.
Qed.

Lemma mitm_none_inv (h : list Z) (s t : Z) :
  mitm_recover_seeds h = Ret None ->
  0 <= s < 2 ^ WIDTH_REG1 -> 0 <= t < 2 ^ WIDTH_REG2 ->
  lfsr_stream t WIDTH_REG2 (convert_taps RAW_TAPS_REG2 WIDTH_REG2) (length h)
  <> Ret (needed_for h s).
Proof.
  rewrite mitm_unfold.
  destruct (table_exists (length h)) as (tbl & Hb & _). rewrite Hb.
  cbn [bind]. rewrite search_seed1_find.
  destruct (list_find _ _) as [[i x]|] eqn:E.
  - apply list_find_py_range_Some in E as (_ & [v Hv] & _).
    by rewrite Hv.
  - intros _ Hs Ht.
    pose proof (proj1 (list_find_py_range_None _ _) E s Hs) as Hno.
    apply (table_lookup_None _ _ _ Hb); [|done].
    destruct (tbl !! needed_for h s) eqn:E'; [|done].
    exfalso. apply Hno. eauto.
Qed.

Lemma stream2_one (s : Z) :
  0 <= s < 2 ^ WIDTH_REG2 ->
  lfsr_stream s WIDTH_REG2 (convert_taps RAW_TAPS_REG2 WIDTH_REG2) 1
  = Ret [s mod 256].
Proof.
  intros Hs. unfold lfsr_stream. cbn [stream_loop].
  assert (8 <= WIDTH_REG2) as Hw by (unfold WIDTH_REG2; lia).
  by destruct (lfsr_next_byte_arith s _ _ Hw taps2_nonneg Hs)
    as (k0 & Hk0 & -> & Hs1).
Qed.

Lemma stream2_two (s : Z) :
  0 <= s < 2 ^ WIDTH_REG2 ->
  lfsr_stream s WIDTH_REG2 (convert_taps RAW_TAPS_REG2 WIDTH_REG2) 2
  = Ret [s mod 256; (s / 256) mod 256].
Proof.
  intros Hs. unfold lfsr_stream. cbn [stream_loop].
  assert (8 <= WIDTH_REG2) as Hw by (unfold WIDTH_REG2; lia).
  destruct (lfsr_next_byte_arith s _ _ Hw taps2_nonneg Hs)
    as (k0 & Hk0 & -> & Hs1).
  cbn [bind fst snd].
  destruct (lfsr_next_byte_arith _ _ _ Hw taps2_nonneg Hs1)
    as (k1 & Hk1 & -> & Hs2).
  cbn [bind fst snd app]. do 3 f_equal.
  change (2 ^ (WIDTH_REG2 - 8)) with 2048.
  Z.div_mod_to_equations. lia.
Qed.

Lemma stream1_zero (n : nat) :
  lfsr_stream 0 WIDTH_REG1 (convert_taps RAW_TAPS_REG1 WIDTH_REG1) n
  = Ret (replicate n 0).
Proof.
  unfold lfsr_stream.
  by rewrite (stream_loop_0 n _ _ [] width1_pos taps1_nonneg).
Qed.

Lemma mitm_found_at_zero (h : list Z) (s2 : Z) :
  0 <= s2 < 2 ^ WIDTH_REG2 ->
  lfsr_stream s2 WIDTH_REG2 (convert_taps RAW_TAPS_REG2 WIDTH_REG2) (length h)
  = Ret (map (fun k => k mod 255) h) ->
  (forall s, 0 <= s < s2 ->
     lfsr_stream s WIDTH_REG2 (convert_taps RAW_TAPS_REG2 WIDTH_REG2)
       (length h) <> Ret (map (fun k => k mod 255) h)) ->
  mitm_recover_seeds h = Ret (Some (0, s2)).
Proof.
  intros Hr2 Hs2 Hmin.
  assert (needed_seq2 h (replicate (length h) 0)
          = map (fun k => k mod 255) h) as Hn.
  { unfold needed_seq2. clear. induction h as [|k h IH]; simpl; [done|].
    by rewrite IH, Z.sub_0_r. }
  apply (mitm_found h 0 s2 (replicate (length h) 0)).
  - change (2 ^ WIDTH_REG1) with 4096. lia.
  - exact Hr2.
  - apply stream1_zero.
  - by rewrite Hn.
  - by rewrite Hn.
  - intros s t Hs. lia.
Qed.

(** X9: a header of fewer than three bytes is always matched at the first
    seed of register 1: the search returns seed1 = 0 and the seed2 made of
    the header bytes reduced modulo 255; the empty header gives (0, 0). *)
Theorem mitm_short_headers :
  mitm_recover_seeds [] = Ret (Some (0, 0))
  /\ (forall k : Z, mitm_recover_seeds [k] = Ret (Some (0, k mod 255)))
  /\ (forall k0 k1 : Z,
        mitm_recover_seeds [k0; k1]
        = Ret (Some (0, k0 mod 255 + 256 * (k1 mod 255)))).
Proof.
  split; [|split].
  - apply mitm_found_at_zero.
    + change (2 ^ WIDTH_REG2) with 524288. lia.
    + reflexivity.
    + intros s Hs. lia.
  - intros k. pose proof (Z.mod_pos_bound k 255 ltac:(lia)) as Hk.
    apply mitm_found_at_zero; cbn [length map].
    + change (2 ^ WIDTH_REG2) with 524288. lia.
    + rewrite stream2_one by (change (2 ^ WIDTH_REG2) with 524288; lia).
      by rewrite (Z.mod_small (k mod 255) 256) by lia.
    + intros s Hs.
      rewrite stream2_one by (change (2 ^ WIDTH_REG2) with 524288; lia).
      intros [= Heq]. rewrite Z.mod_small in Heq by lia. lia.
  - intros k0 k1.
    pose proof (Z.mod_pos_bound k0 255 ltac:(lia)) as Hk0.
    pose proof (Z.mod_pos_bound k1 255 ltac:(lia)) as Hk1.
    set (r0 := k0 mod 255) in *. set (r1 := k1 mod 255) in *.
    apply mitm_found_at_zero; cbn [length map]; fold r0 r1.
    + change (2 ^ WIDTH_REG2) with 524288. lia.
    + rewrite stream2_two by (change (2 ^ WIDTH_REG2) with 524288; lia).
      do 2 f_equal; [|f_equal]; Z.div_mod_to_equations; lia.
    + intros s Hs.
      rewrite stream2_two by (change (2 ^ WIDTH_REG2) with 524288; lia).
      intros [= Heq0 Heq1]. Z.div_mod_to_equations. lia.
Qed.

Lemma map_mod_id (h : list Z) :
  Forall (fun b => 0 <= b <= 254) h -> map (fun k => k mod 255) h = h.
Proof.
  induction 1 as [|k h Hk _ IH]; simpl; [done|].
  rewrite IH. f_equal. apply Z.mod_small. lia.
Qed.

Lemma needed_of_zip (l1 l2 : list Z) :
  length l1 = length l2 ->
  Forall (fun b => 0 <= b <= 254) l2 ->
  needed_seq2 (zip_with (fun b1 b2 => (b1 + b2) mod 255) l1 l2) l1 = l2.
Proof.
  unfold needed_seq2. intros Hlen Hl2. revert l1 Hlen.
  induction Hl2 as [|c l2 Hc _ IH]; intros [|a l1] Hlen; simpl in *;
    try done.
  rewrite IH by lia. f_equal. rewrite needed_of_sum.
  apply Z.mod_small. lia.
Qed.

(** X11: a header generated from seeds within the widths, whose register-2
    stream has no byte 255, is recovered: the search returns a pair with
    seed1 no larger than the generating one, and the pair regenerates the
    header. *)
Theorem mitm_recovers_generated_header (s1 s2 : Z) (n : nat)
  (h l2 : list Z) :
  0 <= s1 < 2 ^ WIDTH_REG1 ->
  0 <= s2 < 2 ^ WIDTH_REG2 ->
  generate_full_keystream s1 s2 n = Ret h ->
  lfsr_stream s2 WIDTH_REG2 (convert_taps RAW_TAPS_REG2 WIDTH_REG2) n
  = Ret l2 ->
  255 ∉ l2 ->
  exists r1 r2 : Z,
    mitm_recover_seeds h = Ret (Some (r1, r2))
    /\ 0 <= r1 <= s1
    /\ generate_full_keystream r1 r2 n = Ret h.
Proof.
  intros Hs1 Hs2 Hgen Hl2 Hno255.
  destruct (lfsr_stream_total _ _ width1_pos taps1_nonneg s1 n)
    as (l1 & Hl1 & Hlen1).
  destruct (lfsr_stream_bounds s2 _ _ n width2_pos taps2_nonneg)
    as (l2' & Hl2' & Hlen2 & Hb2).
  assert (l2' = l2) as -> by congruence.
  assert (Forall (fun b => 0 <= b <= 254) l2) as Hb2'.
  { rewrite Forall_forall in Hb2. apply Forall_forall. intros b Hb.
    specialize (Hb2 b Hb). assert (b <> 255) by (by intros ->). lia. }
  pose proof (generate_full_keystream_range _ _ _ _ Hgen) as Hrange.
  rewrite (generate_full_keystream_zip _ _ _ _ _ Hl1 Hl2) in Hgen.
  injection Hgen as Hh.
  assert (length h = n) as Hlenh.
  { rewrite <- Hh, length_zip_with_l_eq; congruence. }
  assert (needed_seq2 h l1 = l2) as Hneed.
  { rewrite <- Hh. apply needed_of_zip; [congruence | done]. }
  rewrite <- Hlenh in Hl1, Hl2.
  destruct (mitm_total h) as ([[r1 r2]|] & Hm).
  - exists r1, r2. split; [done|].
    destruct (mitm_found_keystream h r1 r2 Hm) as (Hr1 & _ & Hk).
    rewrite (map_mod_id h Hrange), Hlenh in Hk. split; [|done].
    split; [lia|].
    destruct (mitm_found_inv h r1 r2 Hm)
      as (tbl & _ & Hb & _ & _ & _ & _ & Hmin & _).
    destruct (decide (r1 <= s1)) as [|Hgt]; [done|]. exfalso.
    assert (tbl !! needed_seq2 h l1 = None) as Hnone
      by (apply (Hmin s1 l1); [lia | done]).
    apply (table_lookup_None _ _ _ Hb) with (s := s2) in Hnone; [|done].
    apply Hnone. by rewrite Hneed.
  - exfalso. apply (mitm_none_inv h s1 s2 Hm Hs1 Hs2).
    by rewrite (needed_for_eq h s1 l1 Hl1), Hneed.
Qed.

Lemma lxor_byte (a b : Z) :
  0 <= a <= 255 -> 0 <= b <= 255 -> 0 <= Z.lxor a b <= 255.
Proof.
  intros Ha Hb.
  assert (0 <= Z.lxor a b) as Hnn by (apply Z.lxor_nonneg; lia).
  split; [done|].
  enough (Z.lxor a b < 2 ^ 8) by (change (2 ^ 8) with 256 in *; lia).
  apply (Z.bounded_iff_bits_nonneg 8); [lia | done |].
  intros l Hl. rewrite Z.lxor_spec.
  rewrite (proj1 (Z.bounded_iff_bits_nonneg 8 a ltac:(lia) ltac:(lia)))
    by (change (2 ^ 8) with 256; lia || done).
  rewrite (proj1 (Z.bounded_iff_bits_nonneg 8 b ltac:(lia) ltac:(lia)))
    by (change (2 ^ 8) with 256; lia || done).
  reflexivity.
Qed.

Lemma zip_lxor_bytes (l1 l2 : list Z) :
  Forall (fun b => 0 <= b <= 255) l1 ->
  Forall (fun b => 0 <= b <= 255) l2 ->
  Forall (fun b => 0 <= b <= 255) (zip_with Z.lxor l1 l2).
Proof.
  intros H1. revert l2. induction H1 as [|a l1 Ha _ IH]; intros l2 H2.
  - constructor.
  - destruct H2 as [|b l2 Hb H2]; simpl; constructor.
    + by apply lxor_byte.
    + by apply IH.
Qed.

Lemma py_bytes_ok (items : list Z) :
  Forall (fun b => 0 <= b <= 255) items -> py_bytes items = Ret items.
Proof.
  intros Hb. unfold py_bytes.
  assert (forallb (fun x => (0 <=? x) && (x <? 256)) items = true) as ->;
    [|done].
  apply forallb_forall. intros x Hx%list_elem_of_In.
  rewrite Forall_forall in Hb. specialize (Hb x Hx).
  apply andb_true_intro. split; [apply Z.leb_le | apply Z.ltb_lt]; lia.
Qed.

Lemma generate_full_keystream_bytes (s1 s2 : Z) (n : nat) :
  exists ks : list Z,
    generate_full_keystream s1 s2 n = Ret ks
    /\ length ks = n
    /\ Forall (fun b => 0 <= b <= 255) ks.
Proof.
  destruct (generate_full_keystream_app s1 s2 n 0) as (ks & _ & Hks & Hlen & _).
  exists ks. split; [done|]. split; [done|].
  eapply Forall_impl; [exact (generate_full_keystream_range _ _ _ _ Hks)|].
  simpl. intros b Hb. lia.
Qed.

Lemma png_header_bytes : Forall (fun b => 0 <= b <= 255) PNG_HEADER.
Proof. unfold PNG_HEADER. repeat constructor; lia. Qed.

(** X14: on a file of bytes [main] ends in one of three ways: fewer than 8
    bytes raise [RuntimeError]; a search without hit raises [TypeError] at
    the unpacking; otherwise it writes the ciphertext XOR the keystream of
    the recovered seeds, which is as long as the ciphertext and made of
    bytes.  No [ValueError] escapes. *)
Theorem main_outcomes (cipher : list Z) :
  Forall (fun b => 0 <= b <= 255) cipher ->
  ((length cipher < 8)%nat /\ main cipher = RuntimeError)
  \/ ((8 <= length cipher)%nat
      /\ mitm_recover_seeds (zip_with Z.lxor (take 8 cipher) PNG_HEADER)
         = Ret None
      /\ main cipher = TypeError)
  \/ ((8 <= length cipher)%nat
      /\ exists (seed1 seed2 : Z) (ks : list Z),
           mitm_recover_seeds (zip_with Z.lxor (take 8 cipher) PNG_HEADER)
           = Ret (Some (seed1, seed2))
           /\ generate_full_keystream seed1 seed2 (length cipher) = Ret ks
           /\ main cipher
              = Wrote (zip_with Z.lxor cipher ks)
                  (startswith (zip_with Z.lxor cipher ks) PNG_HEADER)
           /\ length (zip_with Z.lxor cipher ks) = length cipher
           /\ Forall (fun b => 0 <= b <= 255) (zip_with Z.lxor cipher ks)).
Proof.
  intros Hbytes. unfold main. change (length PNG_HEADER) with 8%nat.
  destruct (Nat.ltb_spec (length cipher) 8) as [Hlt|Hge]; [left; done|].
  right.
  destruct (mitm_total (zip_with Z.lxor (take 8 cipher) PNG_HEADER))
    as ([[s1 s2]|] & Hm); rewrite Hm; [right | left; done].
  split; [done|].
  destruct (generate_full_keystream_bytes s1 s2 (length cipher))
    as (ks & Hks & Hlen & Hkb).
  exists s1, s2, ks. rewrite Hks.
  pose proof (zip_lxor_bytes cipher ks Hbytes Hkb) as Hplain.
  rewrite (py_bytes_ok _ Hplain). repeat split; try done.
  rewrite length_zip_with_l_eq; congruence.
Qed.

Lemma main_outcomes_witness :
  ((length [1; 2; 3] < 8)%nat /\ main [1; 2; 3] = RuntimeError)
  \/ ((8 <= length [1; 2; 3])%nat
      /\ mitm_recover_seeds (zip_with Z.lxor (take 8 [1; 2; 3]) PNG_HEADER)
         = Ret None
      /\ main [1; 2; 3] = TypeError)
  \/ ((8 <= length [1; 2; 3])%nat
      /\ exists (seed1 seed2 : Z) (ks : list Z),
           mitm_recover_seeds (zip_with Z.lxor (take 8 [1; 2; 3]) PNG_HEADER)
           = Ret (Some (seed1, seed2))
           /\ generate_full_keystream seed1 seed2 (length [1; 2; 3]) = Ret ks
           /\ main [1; 2; 3]
              = Wrote (zip_with Z.lxor [1; 2; 3] ks)
                  (startswith (zip_with Z.lxor [1; 2; 3] ks) PNG_HEADER)
           /\ length (zip_with Z.lxor [1; 2; 3] ks) = length [1; 2; 3]
           /\ Forall (fun b => 0 <= b <= 255) (zip_with Z.lxor [1; 2; 3] ks)).
Proof.
  apply (main_outcomes [1; 2; 3]). repeat constructor; lia.
Defined.

Lemma byte_restored (c p : Z) :
  0 <= c <= 255 -> 0 <= p <= 255 ->
  Z.lxor c (Z.lxor c p mod 255) = p <-> Z.lxor c p <> 255.
Proof.
  intros Hc Hp. pose proof (lxor_byte c p Hc Hp) as Hx.
  destruct (decide (Z.lxor c p = 255)) as [Heq|Hne].
  - rewrite Heq. change (255 mod 255) with 0. rewrite Z.lxor_0_r.
    split; [|done]. intros ->. rewrite Z.lxor_nilpotent in Heq. lia.
  - rewrite Z.mod_small by lia.
    rewrite <- Z.lxor_assoc, Z.lxor_nilpotent, Z.lxor_0_l. done.
Qed.

(** X15: when [main] writes a file, the file is as long as the ciphertext,
    and the final message is printed (the output starts with the PNG
    header) exactly when no byte of the derived keystream header is 255. *)
Theorem main_completed_iff (cipher plain : list Z) (completed : bool) :
  Forall (fun b => 0 <= b <= 255) cipher ->
  main cipher = Wrote plain completed ->
  length plain = length cipher
  /\ (completed = true <->
      255 ∉ zip_with Z.lxor (take 8 cipher) PNG_HEADER)
  /\ (completed = true -> take 8 plain = PNG_HEADER).
Proof.
  intros Hbytes Hmain. unfold main in Hmain.
  change (length PNG_HEADER) with 8%nat in Hmain.
  destruct (Nat.ltb_spec (length cipher) 8) as [Hlt|Hge]; [done|].
  destruct (mitm_recover_seeds _) as [[[s1 s2]|]|e] eqn:Hm; try done.
  destruct (generate_full_keystream_bytes s1 s2 (length cipher))
    as (ks & Hks & Hlen & Hkb).
  rewrite Hks in Hmain.
  rewrite (py_bytes_ok _ (zip_lxor_bytes cipher ks Hbytes Hkb)) in Hmain.
  injection Hmain as <- <-.
  split; [rewrite length_zip_with_l_eq; congruence|].
  (* the first eight keystream bytes are the header modulo 255 *)
  destruct (generate_full_keystream_app s1 s2 8 (length cipher - 8))
    as (ks8 & ks' & Hks8 & Hlen8 & Happ).
  replace (8 + (length cipher - 8))%nat with (length cipher) in Happ by lia.
  assert (ks = ks8 ++ ks') as -> by congruence.
  destruct (mitm_found_keystream _ _ _ Hm) as (_ & _ & Hhead).
  rewrite length_zip_with_l_eq in Hhead
    by (rewrite length_take; change (length PNG_HEADER) with 8%nat; lia).
  rewrite length_take in Hhead.
  replace (8 `min` length cipher)%nat with 8%nat in Hhead by lia.
  assert (ks8 = map (fun k => k mod 255)
                  (zip_with Z.lxor (take 8 cipher) PNG_HEADER)) as ->
    by congruence.
  clear Hm Hks Hks8 Happ Hhead Hlen Hlen8 Hkb.
  do 8 (destruct cipher as [|? cipher]; [simpl in Hge; lia|]).
  rewrite !Forall_cons in Hbytes.
  destruct Hbytes as (B0 & B1 & B2 & B3 & B4 & B5 & B6 & B7 & _).
  unfold startswith.
  cbn [take zip_with map app PNG_HEADER length].
  rewrite bool_decide_eq_true, !not_elem_of_cons.
  assert (forall c p, 0 <= c <= 255 -> 0 <= p <= 255 ->
            255 <> Z.lxor c p -> Z.lxor c (Z.lxor c p mod 255) = p) as Hfwd.
  { intros c p Hc Hp Hne. apply byte_restored; [done | done |]. congruence. }
  assert (forall c p, 0 <= c <= 255 -> 0 <= p <= 255 ->
            Z.lxor c (Z.lxor c p mod 255) = p -> 255 <> Z.lxor c p) as Hbwd.
  { intros c p Hc Hp He. apply byte_restored in He; [|done|done].
    congruence. }
  split; [split|].
  - intros [= E0 E1 E2 E3 E4 E5 E6 E7].
    repeat split; try (apply Hbwd; [done | lia | done]).
    apply not_elem_of_nil.
  - intros (N0 & N1 & N2 & N3 & N4 & N5 & N6 & N7 & _).
    repeat f_equal; apply Hfwd; (done || lia).
  - intros Hc. done.
Qed.

(** X1: with a width below 1 or a negative tap offset, [lfsr_next_bit]
    raises [ValueError] (a negative shift count), whatever the state. *)
Theorem lfsr_next_bit_raises (state width : Z) (taps : list Z) :
  width <= 0 \/ Exists (fun pos => pos < 0) taps ->
  lfsr_next_bit state width taps = Raise ValueError.
Proof. apply lfsr_next_bit_invalid. Qed.

Lemma lfsr_next_bit_raises_witness :
  lfsr_next_bit 5 0 [] = Raise ValueError.
Proof. apply (lfsr_next_bit_raises 5 0 []). left. lia. Defined.

(** X2: for any integer seed, a width of at least 1 and non-negative tap
    offsets, [lfsr_next_byte] returns a byte in [0, 255] and a state in
    [0, 2^width). *)
Theorem lfsr_next_byte_range (seed width : Z) (taps : list Z) :
  1 <= width ->
  Forall (fun pos => 0 <= pos) taps ->
  exists b state : Z,
    lfsr_next_byte seed width taps = Ret (b, state)
    /\ 0 <= b <= 255
    /\ 0 <= state < 2 ^ width.
Proof. apply lfsr_next_byte_bounds. Qed.

Lemma lfsr_next_byte_range_witness :
  exists b state : Z,
    lfsr_next_byte (-7) 12 [10; 5] = Ret (b, state)
    /\ 0 <= b <= 255
    /\ 0 <= state < 2 ^ 12.
Proof.
  apply (lfsr_next_byte_range (-7) 12 [10; 5]); [lia|].
  repeat constructor; lia.
Defined.

(** X3: for a width of at least 8 and a seed in [0, 2^width), the byte that
    [lfsr_next_byte] returns is the low byte of the seed (bits are packed
    least-significant first), and the new state is the seed shifted right by
    8 with eight feedback bits on top. *)
Theorem lfsr_next_byte_low_byte (seed width : Z) (taps : list Z) :
  8 <= width ->
  Forall (fun pos => 0 <= pos) taps ->
  0 <= seed < 2 ^ width ->
  exists k : Z,
    0 <= k < 256
    /\ lfsr_next_byte seed width taps
       = Ret (seed mod 256, seed / 256 + k * 2 ^ (width - 8)).
Proof.
  intros Hw Htaps Hs.
  destruct (lfsr_next_byte_arith seed width taps Hw Htaps Hs)
    as (k & Hk & Hb & _).
  eauto.
Qed.

Lemma lfsr_next_byte_low_byte_witness :
  exists k : Z,
    0 <= k < 256
    /\ lfsr_next_byte 2989 12 [10; 5]
       = Ret (2989 mod 256, 2989 / 256 + k * 2 ^ (12 - 8)).
Proof.
  apply (lfsr_next_byte_low_byte 2989 12 [10; 5]); [lia | | lia].
  repeat constructor; lia.
Defined.

(** X4: for any integer seed, a width of at least 1 and non-negative tap
    offsets, [lfsr_stream] returns exactly [nbytes] bytes, each in
    [0, 255]. *)
Theorem lfsr_stream_bytes (seed width : Z) (taps : list Z) (nbytes : nat) :
  1 <= width ->
  Forall (fun pos => 0 <= pos) taps ->
  exists l : list Z,
    lfsr_stream seed width taps nbytes = Ret l
    /\ length l = nbytes
    /\ Forall (fun b => 0 <= b <= 255) l.
Proof. apply lfsr_stream_bounds. Qed.

Lemma lfsr_stream_bytes_witness :
  exists l : list Z,
    lfsr_stream 4095 12 [10; 5] 3 = Ret l
    /\ length l = 3%nat
    /\ Forall (fun b => 0 <= b <= 255) l.
Proof.
  apply (lfsr_stream_bytes 4095 12 [10; 5] 3); [lia|].
  repeat constructor; lia.
Defined.

(** X6: two seeds of register 2 within its width with the same first
    [n >= 3] bytes are equal: from three bytes on, no two seeds collide in
    the table. *)
Theorem stream2_injective (n : nat) (s t : Z) :
  (3 <= n)%nat ->
  0 <= s < 2 ^ WIDTH_REG2 -> 0 <= t < 2 ^ WIDTH_REG2 ->
  lfsr_stream s WIDTH_REG2 (convert_taps RAW_TAPS_REG2 WIDTH_REG2) n
  = lfsr_stream t WIDTH_REG2 (convert_taps RAW_TAPS_REG2 WIDTH_REG2) n ->
  s = t.
Proof. apply stream2_injective_aux. Qed.

Lemma stream2_injective_witness : 5 = 5.
Proof.
  apply (stream2_injective 3 5 5); [lia | | | reflexivity];
    change (2 ^ WIDTH_REG2) with 524288; lia.
Defined.

(** X7: for headers of at least three bytes the table loses no seed: looking
    up the stream of any seed of register 2 gives that seed back. *)
Theorem table_roundtrip (n : nat) (s : Z) :
  (3 <= n)%nat ->
  0 <= s < 2 ^ WIDTH_REG2 ->
  exists (tbl : gmap (list Z) Z) (seq : list Z),
    build_table (py_range (2 ^ WIDTH_REG2))
      (convert_taps RAW_TAPS_REG2 WIDTH_REG2) n ∅ = Ret tbl
    /\ lfsr_stream s WIDTH_REG2 (convert_taps RAW_TAPS_REG2 WIDTH_REG2) n
       = Ret seq
    /\ tbl !! seq = Some s.
Proof.
  intros Hn Hs. destruct (table_exists n) as (tbl & Hb & _).
  destruct (table_roundtrip_aux n tbl s Hn Hb Hs) as (seq & Hseq & Hl).
  eauto.
Qed.

Lemma table_roundtrip_witness :
  exists (tbl : gmap (list Z) Z) (seq : list Z),
    build_table (py_range (2 ^ WIDTH_REG2))
      (convert_taps RAW_TAPS_REG2 WIDTH_REG2) 3 ∅ = Ret tbl
    /\ lfsr_stream 70000 WIDTH_REG2 (convert_taps RAW_TAPS_REG2 WIDTH_REG2) 3
       = Ret seq
    /\ tbl !! seq = Some 70000.
Proof.
  apply (table_roundtrip 3 70000); [lia|].
  change (2 ^ WIDTH_REG2) with 524288. lia.
Defined.

(** X8: the dictionary loop never overwrites: after it, a key that was
    present keeps its value, and a new key maps to the first seed, in
    iteration order, whose stream it is. *)
Theorem build_table_first_wins (seeds : list Z) (n : nat)
  (tbl0 : gmap (list Z) Z) :
  exists tbl : gmap (list Z) Z,
    build_table seeds (convert_taps RAW_TAPS_REG2 WIDTH_REG2) n tbl0 = Ret tbl
    /\ forall key : list Z,
        tbl !! key
        = match tbl0 !! key with
          | Some v => Some v
          | None =>
              snd <$> list_find
                (fun s => lfsr_stream s WIDTH_REG2
                            (convert_taps RAW_TAPS_REG2 WIDTH_REG2) n
                          = Ret key) seeds
          end.
Proof. apply build_table_lookup. Qed.

(** X10: the search never raises, and a pair it returns lies within the two
    widths and regenerates the header reduced modulo 255. *)
Theorem mitm_sound (h : list Z) :
  exists r : option (Z * Z),
    mitm_recover_seeds h = Ret r
    /\ match r with
       | Some (seed1, seed2) =>
           0 <= seed1 < 2 ^ WIDTH_REG1 /\ 0 <= seed2 < 2 ^ WIDTH_REG2
           /\ generate_full_keystream seed1 seed2 (length h)
              = Ret (map (fun k => k mod 255) h)
       | None => True
       end.
Proof.
  destruct (mitm_total h) as ([[s1 s2]|] & Hm).
  - exists (Some (s1, s2)). split; [done|].
    by apply mitm_found_keystream.
  - by exists None.
Qed.

(** X12: the keystream of [n + m] bytes starts with the keystream of [n]
    bytes. *)
Theorem generate_full_keystream_prefix (seed1 seed2 : Z) (n m : nat) :
  exists ks ks' : list Z,
    generate_full_keystream seed1 seed2 n = Ret ks
    /\ length ks = n
    /\ generate_full_keystream seed1 seed2 (n + m) = Ret (ks ++ ks').
Proof. apply generate_full_keystream_app. Qed.

Lemma mitm_recovers_generated_header_witness :
  exists r1 r2 : Z,
    mitm_recover_seeds [3] = Ret (Some (r1, r2))
    /\ 0 <= r1 <= 0
    /\ generate_full_keystream r1 r2 1 = Ret [3].
Proof.
  apply (mitm_recovers_generated_header 0 3 1 [3] [3]).
  - change (2 ^ WIDTH_REG1) with 4096. lia.
  - change (2 ^ WIDTH_REG2) with 524288. lia.
  - vm_compute. reflexivity.
  - vm_compute. reflexivity.
  - intros Hin. apply list_elem_of_singleton in Hin. lia.
Defined.

Example mitm_header_1 :
  mitm_recover_seeds [1; 0; 0; 0; 0; 0; 0; 0] = Ret (Some (0, 1)).
Proof.
  apply (mitm_found _ 0 1 [0; 0; 0; 0; 0; 0; 0; 0]).
  - change (2 ^ WIDTH_REG1) with 4096. lia.
  - change (2 ^ WIDTH_REG2) with 524288. lia.
  - vm_compute. reflexivity.
  - vm_compute. reflexivity.
  - intros s Hs. assert (s = 0) as -> by lia. vm_compute. discriminate.
  - intros s t Hs. lia.
Qed.

Example main_png :
  main [136; 80; 78; 71; 13; 10; 26; 10; 65; 66]
  = Wrote [137; 80; 78; 71; 13; 10; 26; 10; 65; 66] true.
Proof.
  unfold main.
  change (zip_with Z.lxor
            (take (length PNG_HEADER)
               [136; 80; 78; 71; 13; 10; 26; 10; 65; 66]) PNG_HEADER)
    with [1; 0; 0; 0; 0; 0; 0; 0].
  rewrite mitm_header_1. vm_compute. reflexivity.
Qed.

Lemma main_completed_iff_witness :
  length [137; 80; 78; 71; 13; 10; 26; 10; 65; 66]
  = length [136; 80; 78; 71; 13; 10; 26; 10; 65; 66]
  /\ (true = true <->
      255 ∉ zip_with Z.lxor
              (take 8 [136; 80; 78; 71; 13; 10; 26; 10; 65; 66]) PNG_HEADER)
  /\ (true = true ->
      take 8 [137; 80; 78; 71; 13; 10; 26; 10; 65; 66] = PNG_HEADER).
Proof.
  apply (main_completed_iff [136; 80; 78; 71; 13; 10; 26; 10; 65; 66]).
  - repeat constructor; lia.
  - exact main_png.
Defined.

Example stream_reg2_255 :
  lfsr_stream 255 WIDTH_REG2 (convert_taps RAW_TAPS_REG2 WIDTH_REG2) 4
  = Ret [255; 0; 0; 0].
Proof. vm_compute. reflexivity. Qed.

Example stream_reg2_65280 :
  lfsr_stream 65280 WIDTH_REG2 (convert_taps RAW_TAPS_REG2 WIDTH_REG2) 4
  = Ret [0; 255; 224; 123].
Proof. vm_compute. reflexivity. Qed.

Example keystream_0_65280 :
  generate_full_keystream 0 65280 4 = Ret [0; 0; 224; 123].
Proof. vm_compute. reflexivity. Qed.
